(** * The tab switcher of the terminal front end

    A shallow embedding of [TabSwitcherModal] (the search field, the ranked
    list of session/tab pairs, the focus cursor and the keyboard handler)
    and the properties of its filter, its ranking and its cursor; then
    the pure parts of the views of the remote connections (the status
    line and the buttons of a connection, the edit form and its submit,
    the name in the connections table).

    Conventions of the model:
    - a JavaScript string is a [string] of code units below 256 (Latin-1);
    - a JavaScript number that holds an index is an integer, so [Z], and
      [a - b] on such numbers is exact;
    - an array is a [list]; [Array.prototype.sort] sorts in place, which is
      written as the assignment of the sorted list to the field it aliases;
    - the calls to the command runner and to the modal stack are collected
      in a list of [Effect]s. *)

From Stdlib Require Import ZArith List String Ascii Bool Lia.
From Stdlib Require Import Permutation Sorted DecimalString.
Import ListNotations.

Open Scope string_scope.
Open Scope list_scope.
Open Scope Z_scope.

(** ** The string operations of the host language *)

Module JS.

(** [String.prototype.toLowerCase] on Latin-1 code units: the letters
    A-Z and the accented capitals 0xC0-0xDE (the sign 0xD7 apart) move
    up by 0x20. *)
Definition lowerChar (c : ascii) : ascii :=
  let n := nat_of_ascii c in
  if ((65 <=? n) && (n <=? 90))%nat then ascii_of_nat (n + 32)
  else if ((192 <=? n) && (n <=? 222) && negb (n =? 215))%nat
       then ascii_of_nat (n + 32)
       else c.

Fixpoint toLowerCase (s : string) : string :=
  match s with
  | EmptyString => EmptyString
  | String c s' => String (lowerChar c) (toLowerCase s')
  end.

(** White space and line terminators below 256: TAB, LF, VT, FF, CR,
    SP and NBSP. *)
Definition isWhiteSpace (c : ascii) : bool :=
  let n := nat_of_ascii c in
  (((9 <=? n) && (n <=? 13)) || (n =? 32) || (n =? 160))%nat.

Fixpoint trimStart (s : string) : string :=
  match s with
  | EmptyString => EmptyString
  | String c s' => if isWhiteSpace c then trimStart s' else s
  end.

Definition isEmpty (s : string) : bool :=
  match s with EmptyString => true | _ => false end.

Fixpoint trimEnd (s : string) : string :=
  match s with
  | EmptyString => EmptyString
  | String c s' =>
      let r := trimEnd s' in
      if isWhiteSpace c && isEmpty r then EmptyString else String c r
  end.

(** [String.prototype.trim] *)
Definition trim (s : string) : string := trimEnd (trimStart s).

(** [s.includes(t)]: [t] occurs in [s] as a contiguous substring. *)
Fixpoint includes (s t : string) : bool :=
  prefix t s ||
  match s with
  | EmptyString => false
  | String _ s' => includes s' t
  end.

(** [s.split(sep)] for a separator of one code unit: the segments
    between the occurrences of [sep], all of them. *)
Fixpoint split (sep : ascii) (s : string) : list string :=
  match s with
  | EmptyString => [EmptyString]
  | String c s' =>
      if Ascii.eqb c sep then EmptyString :: split sep s'
      else match split sep s' with
           | seg :: segs => String c seg :: segs
           | [] => [String c EmptyString]
           end
  end.

(** What [undefined] becomes where a string is expected. *)
Definition undefined : string := "undefined".

(** [arr.slice(0, n)] *)
Definition slice0 {A} (n : nat) (arr : list A) : list A := firstn n arr.

(** [arr[i]] read with a number: [None] stands for [undefined]. *)
Definition index {A} (arr : list A) (i : Z) : option A :=
  if i <? 0 then None else nth_error arr (Z.to_nat i).

Section Sort.
Context {A : Type} (cmp : A -> A -> Z).

(** [Array.prototype.sort(cmp)] is stable; with a consistent
    comparator its result is the stable sorted arrangement, which
    insertion from the right computes: an element goes in front of
    the first element it does not compare greater than. *)
Fixpoint insert (x : A) (l : list A) : list A :=
  match l with
  | [] => [x]
  | y :: l' => if cmp x y <=? 0 then x :: l else y :: insert x l'
  end.

Fixpoint sort (l : list A) : list A :=
  match l with
  | [] => []
  | x :: l' => insert x (sort l')
  end.
End Sort.

End JS.

(** ** The data model *)

Record SwitcherDataType := mkData {
  sessionId : string;
  sessionName : string;
  sessionIdx : Z;
  screenId : string;
  screenIdx : Z;
  screenName : string;
  icon : string;
  color : string
}.

Definition MaxOptionsToDisplay : nat := 100.

(** The fields of the component that its handlers read and write. *)
Record TabSwitcherModal := mkModal {
  options : list SwitcherDataType;
  sOptions : list SwitcherDataType;
  focusedIdx : Z;
  activeSessionIdx : Z;
  prevFocusedIdx : Z
}.

(** Calls that leave the component. *)
Inductive Effect :=
| SwitchScreen (screenId sessionId : string)
| PopModal.

(** ** Filter *)

(** The body of the loop of [filterOptions]: the value of [match] for
    one option. *)
Definition matches (tab : SwitcherDataType) (searchInput : string) : bool :=
  if JS.includes searchInput "/" then
    let parts :=
      map (fun s => JS.toLowerCase (JS.trim s)) (JS.split "/"%char searchInput) in
    let sessionFilter := nth 0 parts JS.undefined in
    let screenFilter := nth 1 parts JS.undefined in
    JS.includes (JS.toLowerCase (sessionName tab)) sessionFilter &&
    JS.includes (JS.toLowerCase (screenName tab)) screenFilter
  else
    JS.includes (JS.toLowerCase (sessionName tab)) searchInput ||
    JS.includes (JS.toLowerCase (screenName tab)) searchInput.

(** The loop itself: the options are visited in order and the matching
    ones pushed on a fresh array. *)
Fixpoint filterLoop (opts : list SwitcherDataType) (searchInput : string)
    (filteredScreens : list SwitcherDataType) : list SwitcherDataType :=
  match opts with
  | [] => filteredScreens
  | tab :: rest =>
      filterLoop rest searchInput
        (if matches tab searchInput then filteredScreens ++ [tab]
         else filteredScreens)
  end.

Definition filterOptions (this : TabSwitcherModal) (searchInput : string)
    : list SwitcherDataType :=
  filterLoop (options this) searchInput [].

(** ** Ranking *)

(** The comparator handed to [sort] in [sortOptions]. *)
Definition compareOptions (activeIdx : Z) (a b : SwitcherDataType) : Z :=
  let aInCurrentSession := sessionIdx a =? activeIdx in
  let bInCurrentSession := sessionIdx b =? activeIdx in
  if aInCurrentSession && bInCurrentSession then screenIdx a - screenIdx b
  else if aInCurrentSession then -1
  else if bInCurrentSession then 1
  else if sessionIdx a =? sessionIdx b then screenIdx a - screenIdx b
  else sessionIdx a - sessionIdx b.

(** [sortOptions(options)]: the array it is given, sorted. The caller
    decides which field the sorted array lands in. *)
Definition sortOptions (activeIdx : Z) (opts : list SwitcherDataType)
    : list SwitcherDataType :=
  JS.sort (compareOptions activeIdx) opts.

(** ** The registry the component snapshots when it is mounted *)

Module Model.

Record Session := mkSession {
  sessionId : string;
  name : string;
  sessionIdx : Z;
  archived : bool
}.

Record ScreenOpts := mkOpts {
  tabicon : option string;
  tabcolor : option string
}.

Record Screen := mkScreen {
  screenId : string;
  ownerId : string;          (* the screen's [sessionId] *)
  screenName : string;
  screenIdx : Z;
  opts : option ScreenOpts
}.

(** [GlobalModel]: the active session's index, [sessionList], and the
    values of [screenMap] in iteration order. *)
Record GlobalModel := mkGlobal {
  activeSessionIdx : Z;
  sessionList : list Session;
  screenMap : list Screen
}.

End Model.

(** Modelled from the spec: [util.isBlank] is not among the sources; the
    specification speaks of an icon or colour that is unset, which is
    taken as a value that is absent or the empty string. *)
Definition isBlank (s : option string) : bool :=
  match s with
  | None => true
  | Some v => JS.isEmpty v
  end.

Definition getTabIcon (screen : Model.Screen) : string :=
  match Model.opts screen with
  | Some screenOpts =>
      match Model.tabicon screenOpts with
      | Some v => if isBlank (Some v) then "default" else v
      | None => "default"
      end
  | None => "default"
  end.

Definition getTabColor (screen : Model.Screen) : string :=
  match Model.opts screen with
  | Some screenOpts =>
      match Model.tabcolor screenOpts with
      | Some v => if isBlank (Some v) then "default" else v
      | None => "default"
      end
  | None => "default"
  end.

(** ** The component *)

(** The field initialisers of the class. *)
Definition newModal : TabSwitcherModal :=
  {| options := []; sOptions := []; focusedIdx := 0;
     activeSessionIdx := 0; prevFocusedIdx := 0 |}.

(** The callback of [oScreens.forEach] in [componentDidMount]: the option
    pushed for one screen, if its session is listed and not archived. *)
Definition snapshotScreen (oSessions : list Model.Session)
    (oScreen : Model.Screen) : option SwitcherDataType :=
  match find (fun s => String.eqb (Model.sessionId s) (Model.ownerId oScreen)
                       && Bool.eqb (Model.archived s) false) oSessions with
  | Some foundSession =>
      Some {| sessionName := Model.name foundSession;
              sessionId := Model.sessionId foundSession;
              sessionIdx := Model.sessionIdx foundSession;
              screenName := Model.screenName oScreen;
              screenId := Model.screenId oScreen;
              screenIdx := Model.screenIdx oScreen;
              icon := getTabIcon oScreen;
              color := getTabColor oScreen |}
  | None => None
  end.

Fixpoint snapshot (oSessions : list Model.Session)
    (oScreens : list Model.Screen) : list SwitcherDataType :=
  match oScreens with
  | [] => []
  | oScreen :: rest =>
      match snapshotScreen oSessions oScreen with
      | Some data => data :: snapshot oSessions rest
      | None => snapshot oSessions rest
      end
  end.

(** [componentDidMount]. The sort works on [this.options] itself, so the
    field holds the sorted array afterwards; [slice] copies. *)
Definition componentDidMount (g : Model.GlobalModel) (this : TabSwitcherModal)
    : TabSwitcherModal :=
  let activeIdx := Model.activeSessionIdx g in
  let pushed := options this ++ snapshot (Model.sessionList g) (Model.screenMap g) in
  let sorted := sortOptions activeIdx pushed in
  {| options := sorted;
     sOptions := JS.slice0 MaxOptionsToDisplay sorted;
     focusedIdx := focusedIdx this;
     activeSessionIdx := activeIdx;
     prevFocusedIdx := prevFocusedIdx this |}.

Definition setFocusedIndex (index : Z) (this : TabSwitcherModal)
    : TabSwitcherModal :=
  {| options := options this; sOptions := sOptions this;
     focusedIdx := index;
     activeSessionIdx := activeSessionIdx this;
     prevFocusedIdx := prevFocusedIdx this |}.

(** [componentDidUpdate], without the scrolling of the focused row. *)
Definition componentDidUpdate (this : TabSwitcherModal) : TabSwitcherModal :=
  let currFocusedIdx := focusedIdx this in
  let this1 :=
    if negb (currFocusedIdx =? prevFocusedIdx this) then
      {| options := options this; sOptions := sOptions this;
         focusedIdx := focusedIdx this;
         activeSessionIdx := activeSessionIdx this;
         prevFocusedIdx := currFocusedIdx |}
    else this in
  let len := Z.of_nat (List.length (sOptions this1)) in
  if (currFocusedIdx >=? len) && (len >? 0)
  then setFocusedIndex (len - 1) this1
  else this1.

Definition calculateNewIndex (isUpKey : bool) (this : TabSwitcherModal) : Z :=
  let currentIndex := focusedIdx this in
  if isUpKey then Z.max (currentIndex - 1) 0
  else Z.min (currentIndex + 1) (Z.of_nat (List.length (sOptions this)) - 1).

Definition closeModal : list Effect := [PopModal].

Definition handleSelect (index : Z) (this : TabSwitcherModal)
    : TabSwitcherModal * list Effect :=
  match JS.index (sOptions this) index with
  | Some selectedOption =>
      (this,
       SwitchScreen (screenId selectedOption) (sessionId selectedOption)
         :: closeModal)
  | None => (this, [])
  end.

(** [handleSearch]. With the empty text the sort is handed [this.options]
    itself and sorts it in place; otherwise it sorts the fresh array of
    [filterOptions]. [replace] copies the result into [sOptions]. *)
Definition handleSearch (val : string) (this : TabSwitcherModal)
    : TabSwitcherModal :=
  let activeIdx := activeSessionIdx this in
  if String.eqb val "" then
    let sorted := sortOptions activeIdx (options this) in
    {| options := sorted;
       sOptions := JS.slice0 MaxOptionsToDisplay sorted;
       focusedIdx := 0;
       activeSessionIdx := activeIdx;
       prevFocusedIdx := prevFocusedIdx this |}
  else
    let sOptions1 := filterOptions this val in
    let sOptions2 := sortOptions activeIdx sOptions1 in
    let sOptions3 :=
      if (MaxOptionsToDisplay <? List.length sOptions2)%nat
      then JS.slice0 MaxOptionsToDisplay sOptions2
      else sOptions2 in
    {| options := options this;
       sOptions := sOptions3;
       focusedIdx := 0;
       activeSessionIdx := activeIdx;
       prevFocusedIdx := prevFocusedIdx this |}.

Definition handleKeyDown (key : string) (this : TabSwitcherModal)
    : TabSwitcherModal * list Effect :=
  if String.eqb key "Escape" then (this, closeModal)
  else if String.eqb key "ArrowUp" || String.eqb key "ArrowDown" then
    let newIndex := calculateNewIndex (String.eqb key "ArrowUp") this in
    (setFocusedIndex newIndex this, [])
  else if String.eqb key "Enter" then handleSelect (focusedIdx this) this
  else (this, []).

(** ** The component as a transition system *)

Inductive Event :=
| SearchChange (val : string)       (* the search field's [onChange] *)
| KeyDown (key : string)            (* the document's [keydown] *)
| Click (index : Z).                (* a row's [onClick] *)

(** One event: its handler, then the update hook of the re-render. *)
Definition step (e : Event) (this : TabSwitcherModal)
    : TabSwitcherModal * list Effect :=
  let '(this', effs) :=
    match e with
    | SearchChange val => (handleSearch val this, [])
    | KeyDown key => handleKeyDown key this
    | Click index => handleSelect index this
    end in
  (componentDidUpdate this', effs).

Fixpoint run (es : list Event) (this : TabSwitcherModal)
    : TabSwitcherModal * list Effect :=
  match es with
  | [] => (this, [])
  | e :: es' =>
      let '(this1, effs1) := step e this in
      let '(this2, effs2) := run es' this1 in
      (this2, effs1 ++ effs2)
  end.

(** The state the component is in once it is mounted. *)
Definition mounted (g : Model.GlobalModel) : TabSwitcherModal :=
  componentDidMount g newModal.

(** ** The running example of the specification *)

Module Scenario.

Definition opt (sname : string) (sidx : Z) (tname : string) (tidx : Z)
    : SwitcherDataType :=
  {| sessionId := "s-" ++ sname; sessionName := sname; sessionIdx := sidx;
     screenId := ("t-" ++ sname ++ "-" ++ tname)%string;
     screenIdx := tidx; screenName := tname;
     icon := "default"; color := "default" |}%string.

Definition workLogs := opt "work" 0 "logs" 0.
Definition workBuild := opt "work" 0 "build" 1.
Definition playLogs := opt "play" 1 "logs" 0.

Definition registry : Model.GlobalModel :=
  {| Model.activeSessionIdx := 0;
     Model.sessionList :=
       [Model.mkSession "s-work" "work" 0 false;
        Model.mkSession "s-play" "play" 1 false];
     Model.screenMap :=
       [Model.mkScreen "t-play-logs" "s-play" "logs" 0 None;
        Model.mkScreen "t-work-build" "s-work" "build" 1 None;
        Model.mkScreen "t-work-logs" "s-work" "logs" 0 None] |}.

Definition emptyRegistry : Model.GlobalModel :=
  {| Model.activeSessionIdx := 0;
     Model.sessionList := [];
     Model.screenMap := [] |}.

End Scenario.

(** ** The remote connections *)

(** The fields of [T.RemoteType] and [T.RemoteEditType] the views read.
    A string that may be [null] or [undefined] is an [option]. *)
Module Remote.

Record RemoteType := mkRemote {
  remoteid : string;
  remotetype : string;
  remotealias : option string;
  remotecanonicalname : string;
  status : string;
  installstatus : string;
  connectmode : option string;
  authtype : option string;
  sshconfigsrc : string;
  connecttimeout : option Z;
  local : bool;
  archived : bool;
  needsmshellupgrade : bool;
  waitingforpassword : bool;
  noinitpk : bool
}.

Record RemoteEditType := mkEdit {
  keystr : option string;
  haspassword : bool
}.

(** The reads through [?.] of a remote or an edit that may be [null];
    an absent flag is falsy. *)
Definition aliasOf (r : option RemoteType) : option string :=
  match r with Some r => remotealias r | None => None end.

Definition connectmodeOf (r : option RemoteType) : option string :=
  match r with Some r => connectmode r | None => None end.

Definition authtypeOf (r : option RemoteType) : option string :=
  match r with Some r => authtype r | None => None end.

Definition remoteidOf (r : option RemoteType) : option string :=
  match r with Some r => Some (remoteid r) | None => None end.

Definition keystrOf (e : option RemoteEditType) : option string :=
  match e with Some e => keystr e | None => None end.

Definition haspasswordOf (e : option RemoteEditType) : bool :=
  match e with Some e => haspassword e | None => false end.

End Remote.

(** A string built from a number that holds an integer. *)
Definition numberToString (z : Z) : string :=
  NilZero.string_of_int (Z.to_int z).

(** [v == lit] for a value that may be [null]. *)
Definition isString (v : option string) (lit : string) : bool :=
  match v with
  | Some s => String.eqb s lit
  | None => false
  end.

(** What the views ask of the model and of the command runner. *)
Inductive Command :=
| EditRemote (remoteid : option string) (kwargs : list (string * option string))
| ArchiveRemote (remoteid : string)
| ShowAlert (message : string) (confirm : bool)
| CloseModal.

(** A handler that may wait for the answer to a confirm alert: the
    commands it issues at once, and those of its [then] callback. *)
Inductive Flow :=
| Done (cmds : list Command)
| Ask (alert : Command) (answer : bool -> list Command).

(** All the commands of a flow, given the answer. *)
Definition commands (f : Flow) (confirm : bool) : list Command :=
  match f with
  | Done cmds => cmds
  | Ask alert answer => alert :: answer confirm
  end.

Module ViewRemoteConnDetailModal.

Definition getStatus (status : string) : string :=
  if String.eqb status "connected" then "green"
  else if String.eqb status "disconnected" then "gray"
  else "red".

Definition getMessage (remote : Remote.RemoteType) : string :=
  if String.eqb (Remote.status remote) "connected" then
    "Connected and ready to run commands."
  else if String.eqb (Remote.status remote) "connecting" then
    let message :=
      if Remote.waitingforpassword remote
      then "Connecting, waiting for user-input..." else "Connecting..." in
    let connectTimeout :=
      match Remote.connecttimeout remote with Some t => t | None => 0 end in
    (message ++ " (" ++ numberToString connectTimeout ++ "s)")%string
  else if String.eqb (Remote.status remote) "disconnected" then "Disconnected"
  else if String.eqb (Remote.status remote) "error" then
    if Remote.noinitpk remote then "Error, could not connect."
    else if Remote.needsmshellupgrade remote then
      if String.eqb (Remote.installstatus remote) "connecting"
      then "Installing..." else "Error, needs install."
    else "Error"
  else "".

(** The buttons of the header; [NoButton] is the empty fragment. *)
Inductive HeaderButton :=
| DisconnectNow | ConnectNow | TryReconnect
| EditButton | EditDisabled
| CancelInstall | InstallNow
| DeleteButton | DeleteWithWarning
| Reinstall | NoButton.

Definition renderHeaderBtns (remote : Remote.RemoteType) : list HeaderButton :=
  let installNowButton := if Remote.local remote then NoButton else InstallNow in
  let updateAuthButton := if Remote.local remote then NoButton else EditButton in
  let cancelInstallButton :=
    if Remote.local remote then NoButton else CancelInstall in
  let imported := String.eqb (Remote.sshconfigsrc remote) "sshconfig-import" in
  let updateAuthButton := if imported then EditDisabled else updateAuthButton in
  let archiveButton := if imported then DeleteWithWarning else DeleteButton in
  let buttons :=
    if String.eqb (Remote.status remote) "connected"
       || String.eqb (Remote.status remote) "connecting" then [DisconnectNow]
    else if String.eqb (Remote.status remote) "disconnected" then [ConnectNow]
    else if String.eqb (Remote.status remote) "error" then
      if Remote.needsmshellupgrade remote then
        if String.eqb (Remote.installstatus remote) "connecting"
        then [cancelInstallButton] else [installNowButton]
      else [TryReconnect]
    else [] in
  buttons ++ [Reinstall; updateAuthButton; archiveButton].

(** [clickArchive]: [atClick] is [selectedRemote] when the button is
    clicked, [atAnswer] what it is when the alert is answered. *)
Definition clickArchive (atClick atAnswer : option Remote.RemoteType) : Flow :=
  let connected :=
    match atClick with
    | Some remote => String.eqb (Remote.status remote) "connected"
    | None => false
    end in
  if connected then
    Done [ShowAlert "Cannot delete when connected.  Disconnect and try again."
            false]
  else
    Ask (ShowAlert "Are you sure you want to delete this connection?" true)
      (fun confirm =>
         if negb confirm then []
         else match atAnswer with
              | Some remote => [ArchiveRemote (Remote.remoteid remote)]
              | None => []
              end).

End ViewRemoteConnDetailModal.

Definition PasswordUnchangedSentinel : string := "--unchanged--".

Module EditRemoteConnModal.

(** The observable boxes of the form. *)
Record Form := mkForm {
  tempAlias : option string;
  tempKeyFile : option string;
  tempPassword : option string;
  tempConnectMode : option string;
  tempAuthMode : option string
}.

Definition componentDidMount (selectedRemote : option Remote.RemoteType)
    (remoteEdit : option Remote.RemoteEditType) : Form :=
  {| tempAlias := Remote.aliasOf selectedRemote;
     tempKeyFile := Remote.keystrOf remoteEdit;
     tempPassword :=
       Some (if Remote.haspasswordOf remoteEdit
             then PasswordUnchangedSentinel else "");
     tempConnectMode := Remote.connectmodeOf selectedRemote;
     tempAuthMode := Remote.authtypeOf selectedRemote |}.

Definition handleChangePassword (value : string) (this : Form) : Form :=
  {| tempAlias := tempAlias this; tempKeyFile := tempKeyFile this;
     tempPassword := Some value;
     tempConnectMode := tempConnectMode this;
     tempAuthMode := tempAuthMode this |}.

Definition handleChangeAuthMode (value : string) (this : Form) : Form :=
  {| tempAlias := tempAlias this; tempKeyFile := tempKeyFile this;
     tempPassword := tempPassword this;
     tempConnectMode := tempConnectMode this;
     tempAuthMode := Some value |}.

Definition canResetPw (this : Form)
    (remoteEdit : option Remote.RemoteEditType) : bool :=
  match remoteEdit with
  | None => false
  | Some e =>
      Remote.haspassword e
      && negb (isString (tempPassword this) PasswordUnchangedSentinel)
  end.

Definition resetPw (this : Form) : Form :=
  handleChangePassword PasswordUnchangedSentinel this.

(** The two tests of [submitRemote] on the auth mode. *)
Definition keyMode (authMode : option string) : bool :=
  isString authMode "key" || isString authMode "key+password".

Definition passwordMode (authMode : option string) : bool :=
  isString authMode "password" || isString authMode "key+password".

(** The [kwargs] object of [submitRemote], its entries in the order
    they are assigned; no key is assigned twice. [util.isBlank] and
    [util.isStrEq] are parameters. *)
Definition submitKwargs
    (isBlank : option string -> bool)
    (isStrEq : option string -> option string -> bool) (this : Form)
    (selectedRemote : option Remote.RemoteType)
    (remoteEdit : option Remote.RemoteEditType)
    : list (string * option string) :=
  let authMode := tempAuthMode this in
  let key :=
    if keyMode authMode then
      let keyStrEq := isStrEq (tempKeyFile this) (Remote.keystrOf remoteEdit) in
      if negb keyStrEq then [("key", tempKeyFile this)] else []
    else
      if negb (isBlank (tempKeyFile this)) then [("key", Some "")] else [] in
  let password :=
    if passwordMode authMode then
      if negb (isString (tempPassword this) PasswordUnchangedSentinel)
      then [("password", tempPassword this)] else []
    else
      if Remote.haspasswordOf remoteEdit then [("password", Some "")] else [] in
  let alias :=
    if negb (isStrEq (tempAlias this) (Remote.aliasOf selectedRemote))
    then [("alias", tempAlias this)] else [] in
  let connectmode :=
    if negb (isStrEq (tempConnectMode this) (Remote.connectmodeOf selectedRemote))
    then [("connectmode", tempConnectMode this)] else [] in
  key ++ password ++ alias ++ connectmode
    ++ [("visual", Some "1"); ("submit", Some "1")].

Definition submitRemote
    (isBlank : option string -> bool)
    (isStrEq : option string -> option string -> bool) (this : Form)
    (selectedRemote : option Remote.RemoteType)
    (remoteEdit : option Remote.RemoteEditType) : list Command :=
  [EditRemote (Remote.remoteidOf selectedRemote)
     (submitKwargs isBlank isStrEq this selectedRemote remoteEdit);
   CloseModal].

End EditRemoteConnModal.

Module ConnectionsView.

(** [getName]: the alias is used when it is neither absent nor empty. *)
Definition getName (item : Remote.RemoteType) : string :=
  match Remote.remotealias item with
  | Some remotealias =>
      if JS.isEmpty remotealias then Remote.remotecanonicalname item
      else (remotealias ++ " [" ++ Remote.remotecanonicalname item ++ "]")%string
  | None => Remote.remotecanonicalname item
  end.

End ConnectionsView.

(** Reading a key of a [kwargs] object. *)
Fixpoint kwargsGet (key : string) (kwargs : list (string * option string))
    : option (option string) :=
  match kwargs with
  | [] => None
  | (k, v) :: rest => if String.eqb k key then Some v else kwargsGet key rest
  end.

(** A sample connection. *)
Definition sampleRemote : Remote.RemoteType :=
  {| Remote.remoteid := "r1"; Remote.remotetype := "ssh";
     Remote.remotealias := Some "box";
     Remote.remotecanonicalname := "me@box";
     Remote.status := "disconnected"; Remote.installstatus := "connected";
     Remote.connectmode := Some "startup"; Remote.authtype := Some "password";
     Remote.sshconfigsrc := "waveterm-manual";
     Remote.connecttimeout := None;
     Remote.local := false; Remote.archived := false;
     Remote.needsmshellupgrade := false; Remote.waitingforpassword := false;
     Remote.noinitpk := false |}.

Definition sampleEdit : Remote.RemoteEditType :=
  {| Remote.keystr := None; Remote.haspassword := true |}.

(** Equality of two strings that may be absent. *)
Definition sameString (a b : option string) : bool :=
  match a, b with
  | Some x, Some y => String.eqb x y
  | None, None => true
  | _, _ => false
  end.

(** ** The vocabulary of the properties *)

(** [rankedBefore act a b]: [a] may stand before [b]. An option of the
    active session stands before every option outside it; inside the
    active session the tab index ascends; outside it the session index
    ascends and, within one session, the tab index. *)
Definition rankedBefore (act : Z) (a b : SwitcherDataType) : Prop :=
  (sessionIdx a = act /\ sessionIdx b <> act) \/
  (sessionIdx a = act /\ sessionIdx b = act /\ screenIdx a <= screenIdx b) \/
  (sessionIdx a <> act /\ sessionIdx b <> act /\
   (sessionIdx a < sessionIdx b \/
    (sessionIdx a = sessionIdx b /\ screenIdx a <= screenIdx b))).

(** [options] is in ranked order for the anchor the component holds. *)
Definition optionsRanked (this : TabSwitcherModal) : Prop :=
  Sorted (fun a b => compareOptions (activeSessionIdx this) a b <= 0)
    (options this).

(** The predicate of the specification for a query without a slash:
    both the names and the query are lower-cased. *)
Definition matchesInsensitive (tab : SwitcherDataType) (q : string) : bool :=
  JS.includes (JS.toLowerCase (sessionName tab)) (JS.toLowerCase q) ||
  JS.includes (JS.toLowerCase (screenName tab)) (JS.toLowerCase q).

(** The predicate of the specification for a query with a slash: the
    query is cut at its first slash. *)
Fixpoint beforeSlash (q : string) : string :=
  match q with
  | EmptyString => EmptyString
  | String c q' =>
      if Ascii.eqb c "/" then EmptyString else String c (beforeSlash q')
  end.

Fixpoint afterSlash (q : string) : string :=
  match q with
  | EmptyString => EmptyString
  | String c q' => if Ascii.eqb c "/" then q' else afterSlash q'
  end.

Definition matchesFirstSlash (tab : SwitcherDataType) (q : string) : bool :=
  let sessionQuery := JS.toLowerCase (JS.trim (beforeSlash q)) in
  let tabQuery := JS.toLowerCase (JS.trim (afterSlash q)) in
  JS.includes (JS.toLowerCase (sessionName tab)) sessionQuery &&
  JS.includes (JS.toLowerCase (screenName tab)) tabQuery.

(** The range the cursor keeps: inside [sOptions] when there are visible
    options, and -1 or 0 when there are none. *)
Definition cursorInRange (this : TabSwitcherModal) : Prop :=
  let len := Z.of_nat (List.length (sOptions this)) in
  (len = 0 /\ -1 <= focusedIdx this <= 0) \/ 0 <= focusedIdx this < len.

(** Two options with the same sort keys. *)
Definition sameKey (a b : SwitcherDataType) : bool :=
  (sessionIdx a =? sessionIdx b) && (screenIdx a =? screenIdx b).

(** No two different options of [l] share their sort keys. *)
Definition distinctKeys (l : list SwitcherDataType) : Prop :=
  forall a b, In a l -> In b l -> sameKey a b = true -> a = b.

(** The text of the last search among the events, [q0] when there is
    none. *)
Definition lastQuery (q0 : string) (es : list Event) : string :=
  fold_left (fun q e => match e with SearchChange val => val | _ => q end)
    es q0.

(** The test of [componentDidMount]'s [find]: the screen's session is
    listed and not archived. *)
Definition hasLiveSession (oSessions : list Model.Session)
    (oScreen : Model.Screen) : bool :=
  existsb (fun s => String.eqb (Model.sessionId s) (Model.ownerId oScreen)
                    && Bool.eqb (Model.archived s) false) oSessions.

(** Where the update hook leaves a cursor [f] over [len] rows. *)
Definition clampCursor (len f : Z) : Z :=
  if (f >=? len) && (len >? 0) then len - 1 else f.

(** * Properties *)

(** ** The scenarios of the specification *)

Example scenario_mount :
  sOptions (mounted Scenario.registry)
  = [Scenario.workLogs; Scenario.workBuild; Scenario.playLogs].
Proof. reflexivity. Qed.

Example scenario_log :
  sOptions (fst (step (SearchChange "log") (mounted Scenario.registry)))
  = [Scenario.workLogs; Scenario.playLogs].
Proof. reflexivity. Qed.

Example scenario_slash :
  sOptions (fst (step (SearchChange "work/build") (mounted Scenario.registry)))
  = [Scenario.workBuild].
Proof. reflexivity. Qed.

Example scenario_arrow_down_twice :
  focusedIdx (fst (run [KeyDown "ArrowDown"; KeyDown "ArrowDown"]
    (fst (step (SearchChange "log") (mounted Scenario.registry))))) = 1.
Proof. reflexivity. Qed.

Example scenario_enter :
  snd (run [KeyDown "ArrowDown"; KeyDown "Enter"] (mounted Scenario.registry))
  = [SwitchScreen "t-work-build" "s-work"; PopModal].
Proof. reflexivity. Qed.

(** ** The stable sort *)

Section SortFacts.
Context {A : Type} (cmp : A -> A -> Z).

Lemma insert_perm (x : A) (l : list A) :
  Permutation (JS.insert cmp x l) (x :: l).
Proof.
  induction l as [|y l IH]; simpl.
  - apply Permutation_refl.
  - destruct (cmp x y <=? 0).
    + apply Permutation_refl.
    + eapply perm_trans; [apply perm_skip, IH | apply perm_swap].
Qed.

Lemma sort_perm (l : list A) : Permutation (JS.sort cmp l) l.
Proof.
  induction l as [|x l IH]; simpl.
  - constructor.
  - eapply perm_trans; [apply insert_perm | now apply perm_skip].
Qed.

(** Sorting an array that is in order already moves nothing: this is
    what stability gives when neighbours compare [<= 0]. *)
Lemma sort_in_order (l : list A) :
  Sorted (fun a b => cmp a b <= 0) l -> JS.sort cmp l = l.
Proof.
  induction 1 as [|x l Hs IH Hhd]; simpl; [reflexivity|].
  rewrite IH. destruct Hhd as [|y l' Hxy]; simpl; [reflexivity|].
  apply Z.leb_le in Hxy. now rewrite Hxy.
Qed.

Hypothesis cmp_total : forall a b, cmp a b <= 0 \/ cmp b a <= 0.
Hypothesis cmp_trans :
  forall a b c, cmp a b <= 0 -> cmp b c <= 0 -> cmp a c <= 0.

Lemma insert_in_order (x : A) (l : list A) :
  StronglySorted (fun a b => cmp a b <= 0) l ->
  StronglySorted (fun a b => cmp a b <= 0) (JS.insert cmp x l).
Proof.
  induction 1 as [|y l Hs IH Hall]; simpl.
  - constructor; constructor.
  - destruct (cmp x y <=? 0) eqn:E.
    + apply Z.leb_le in E. constructor.
      * now constructor.
      * constructor; [exact E|].
        eapply Forall_impl; [|exact Hall].
        intros z Hyz. now apply cmp_trans with y.
    + apply Z.leb_gt in E. constructor; [exact IH|].
      assert (Hyx : cmp y x <= 0)
        by (destruct (cmp_total x y); [lia | assumption]).
      eapply Permutation_Forall;
        [apply Permutation_sym, insert_perm | now constructor].
Qed.

Lemma sort_orders (l : list A) :
  StronglySorted (fun a b => cmp a b <= 0) (JS.sort cmp l).
Proof.
  induction l as [|x l IH]; simpl; [constructor | now apply insert_in_order].
Qed.

End SortFacts.

(** ** The ranking, in the words of the specification *)

Lemma compareOptions_ranked (act : Z) (a b : SwitcherDataType) :
  compareOptions act a b <= 0 <-> rankedBefore act a b.
Proof.
  unfold compareOptions, rankedBefore.
  destruct (Z.eqb_spec (sessionIdx a) act), (Z.eqb_spec (sessionIdx b) act),
    (Z.eqb_spec (sessionIdx a) (sessionIdx b)); simpl; lia.
Qed.

Lemma compareOptions_total (act : Z) (a b : SwitcherDataType) :
  compareOptions act a b <= 0 \/ compareOptions act b a <= 0.
Proof.
  unfold compareOptions.
  destruct (Z.eqb_spec (sessionIdx a) act), (Z.eqb_spec (sessionIdx b) act),
    (Z.eqb_spec (sessionIdx a) (sessionIdx b)),
    (Z.eqb_spec (sessionIdx b) (sessionIdx a)); simpl; lia.
Qed.

Lemma compareOptions_trans (act : Z) (a b c : SwitcherDataType) :
  compareOptions act a b <= 0 -> compareOptions act b c <= 0 ->
  compareOptions act a c <= 0.
Proof.
  rewrite !compareOptions_ranked. unfold rankedBefore. lia.
Qed.

Lemma sortOptions_in_order (act : Z) (l : list SwitcherDataType) :
  Sorted (fun a b => compareOptions act a b <= 0) l -> sortOptions act l = l.
Proof. apply sort_in_order. Qed.

Lemma sortOptions_sorted (act : Z) (l : list SwitcherDataType) :
  Sorted (fun a b => compareOptions act a b <= 0) (sortOptions act l).
Proof.
  apply StronglySorted_Sorted, sort_orders.
  - apply compareOptions_total.
  - apply compareOptions_trans.
Qed.

Lemma sortOptions_idempotent (act : Z) (l : list SwitcherDataType) :
  sortOptions act (sortOptions act l) = sortOptions act l.
Proof. apply sortOptions_in_order, sortOptions_sorted. Qed.

(** In a list in order, an element at a lower index is related to any
    element at a higher one. *)
Lemma StronglySorted_nth {A} (R : A -> A -> Prop) (l : list A) :
  StronglySorted R l ->
  forall i j a b, (i < j)%nat ->
    nth_error l i = Some a -> nth_error l j = Some b -> R a b.
Proof.
  induction 1 as [|x l Hs IH Hall]; intros i j a b Hij Hi Hj.
  - now destruct i.
  - destruct j as [|j]; [lia|]. cbn [nth_error] in Hj.
    destruct i as [|i]; cbn [nth_error] in Hi.
    + injection Hi as <-. rewrite Forall_forall in Hall.
      apply Hall. now apply nth_error_In with j.
    + apply (IH i j); [lia | assumption | assumption].
Qed.

(** C2: the ranking rearranges the options it is given, none added and
    none lost, into the order the specification describes. In its
    result every option of the active session stands at a lower index
    than every option outside it, whatever their tab indices; two options
    of the active session stand in ascending tab index; two options
    outside it stand in ascending session index and, within one session,
    in ascending tab index. The order compares any two options and is
    transitive. *)
Theorem sortOptions_ranked (act : Z) (l : list SwitcherDataType) :
  let ranked := sortOptions act l in
  Permutation ranked l /\
  StronglySorted (rankedBefore act) ranked /\
  (forall a b, In a l -> In b l ->
     sessionIdx a = act -> sessionIdx b <> act ->
     exists i j, (i < j)%nat /\
       nth_error ranked i = Some a /\ nth_error ranked j = Some b) /\
  (forall i j a b,
     nth_error ranked i = Some a -> nth_error ranked j = Some b ->
     sessionIdx a = act -> sessionIdx b <> act -> (i < j)%nat) /\
  (forall i j a b,
     nth_error ranked i = Some a -> nth_error ranked j = Some b ->
     (i < j)%nat -> sessionIdx a = act -> sessionIdx b = act ->
     screenIdx a <= screenIdx b) /\
  (forall i j a b,
     nth_error ranked i = Some a -> nth_error ranked j = Some b ->
     (i < j)%nat -> sessionIdx a <> act -> sessionIdx b <> act ->
     sessionIdx a < sessionIdx b \/
     (sessionIdx a = sessionIdx b /\ screenIdx a <= screenIdx b)) /\
  (forall a b, rankedBefore act a b \/ rankedBefore act b a) /\
  (forall a b c,
      rankedBefore act a b -> rankedBefore act b c -> rankedBefore act a c).
Proof.
  cbv zeta.
  assert (Hs : StronglySorted (rankedBefore act) (sortOptions act l)).
  { assert (H : StronglySorted (fun a b => compareOptions act a b <= 0)
                  (sortOptions act l)).
    { apply sort_orders;
        [apply compareOptions_total | apply compareOptions_trans]. }
    induction H as [|x l' Hs IH Hall]; constructor; [exact IH|].
    eapply Forall_impl; [|exact Hall].
    intros y Hy. now apply compareOptions_ranked. }
  assert (Hp : Permutation (sortOptions act l) l) by apply sort_perm.
  assert (Hfirst : forall i j a b,
     nth_error (sortOptions act l) i = Some a ->
     nth_error (sortOptions act l) j = Some b ->
     sessionIdx a = act -> sessionIdx b <> act -> (i < j)%nat).
  { intros i j a b Hi Hj Ha Hb.
    destruct (Nat.lt_trichotomy i j) as [Hlt|[Heq|Hgt]]; [exact Hlt| |].
    - subst j. rewrite Hi in Hj. injection Hj as <-. contradiction.
    - pose proof (StronglySorted_nth _ _ Hs j i b a Hgt Hj Hi) as Hr.
      unfold rankedBefore in Hr. lia. }
  split; [exact Hp|]. split; [exact Hs|].
  split; [|split; [|split; [|split; [|split]]]].
  - intros a b Ha Hb Hact Hout.
    apply (Permutation_in _ (Permutation_sym Hp)) in Ha, Hb.
    apply In_nth_error in Ha as [i Hi], Hb as [j Hj]. exists i, j.
    split; [now apply (Hfirst i j a b) | now split].
  - exact Hfirst.
  - intros i j a b Hi Hj Hlt Ha Hb.
    pose proof (StronglySorted_nth _ _ Hs i j a b Hlt Hi Hj) as Hr.
    unfold rankedBefore in Hr. lia.
  - intros i j a b Hi Hj Hlt Ha Hb.
    pose proof (StronglySorted_nth _ _ Hs i j a b Hlt Hi Hj) as Hr.
    unfold rankedBefore in Hr. lia.
  - intros a b. rewrite <- !compareOptions_ranked. apply compareOptions_total.
  - intros a b c. rewrite <- !compareOptions_ranked. apply compareOptions_trans.
Qed.

(** ** The filter *)

Lemma filterLoop_filter (opts : list SwitcherDataType) (q : string) :
  forall acc,
    filterLoop opts q acc = acc ++ filter (fun tab => matches tab q) opts.
Proof.
  induction opts as [|tab rest IH]; intros acc; simpl.
  - now rewrite app_nil_r.
  - rewrite IH. destruct (matches tab q); [|reflexivity].
    now rewrite <- app_assoc.
Qed.

Lemma filterOptions_filter (this : TabSwitcherModal) (q : string) :
  filterOptions this q = filter (fun tab => matches tab q) (options this).
Proof. unfold filterOptions. now rewrite filterLoop_filter. Qed.

Lemma includes_empty (s : string) : JS.includes s "" = true.
Proof. destruct s; reflexivity. Qed.

Lemma matches_empty (tab : SwitcherDataType) : matches tab "" = true.
Proof. unfold matches. simpl. now rewrite includes_empty. Qed.

Lemma filter_matches_empty (opts : list SwitcherDataType) :
  filter (fun tab => matches tab "") opts = opts.
Proof.
  induction opts as [|tab rest IH]; simpl; [reflexivity|].
  now rewrite matches_empty, IH.
Qed.

(** ** The search update *)

Lemma slice_when_longer {A} (n : nat) (l : list A) :
  (if (n <? List.length l)%nat then JS.slice0 n l else l) = firstn n l.
Proof.
  unfold JS.slice0. destruct (Nat.ltb_spec n (List.length l)); [reflexivity|].
  symmetry. now apply firstn_all2.
Qed.

Lemma handleSearch_sOptions (val : string) (this : TabSwitcherModal) :
  sOptions (handleSearch val this)
  = firstn MaxOptionsToDisplay
      (sortOptions (activeSessionIdx this)
         (filter (fun tab => matches tab val) (options this))).
Proof.
  unfold handleSearch.
  destruct (String.eqb_spec val "") as [->|Hne]; cbv zeta; cbn [sOptions].
  - now rewrite filter_matches_empty.
  - now rewrite slice_when_longer, filterOptions_filter.
Qed.

Lemma handleSearch_focusedIdx (val : string) (this : TabSwitcherModal) :
  focusedIdx (handleSearch val this) = 0.
Proof. unfold handleSearch. now destruct (String.eqb val ""). Qed.

Lemma handleSearch_activeSessionIdx (val : string) (this : TabSwitcherModal) :
  activeSessionIdx (handleSearch val this) = activeSessionIdx this.
Proof. unfold handleSearch. now destruct (String.eqb val ""). Qed.

(** The update hook leaves a cursor at 0 alone, and never touches the
    arrays. *)
Lemma componentDidUpdate_sOptions (this : TabSwitcherModal) :
  sOptions (componentDidUpdate this) = sOptions this.
Proof.
  unfold componentDidUpdate, setFocusedIndex.
  destruct (negb _); simpl; destruct (_ && _); reflexivity.
Qed.

Lemma componentDidUpdate_options (this : TabSwitcherModal) :
  options (componentDidUpdate this) = options this.
Proof.
  unfold componentDidUpdate, setFocusedIndex.
  destruct (negb _); simpl; destruct (_ && _); reflexivity.
Qed.

Lemma componentDidUpdate_activeSessionIdx (this : TabSwitcherModal) :
  activeSessionIdx (componentDidUpdate this) = activeSessionIdx this.
Proof.
  unfold componentDidUpdate, setFocusedIndex.
  destruct (negb _); simpl; destruct (_ && _); reflexivity.
Qed.

Lemma componentDidUpdate_focusedIdx (this : TabSwitcherModal) :
  focusedIdx (componentDidUpdate this)
  = let len := Z.of_nat (List.length (sOptions this)) in
    if (focusedIdx this >=? len) && (len >? 0) then len - 1
    else focusedIdx this.
Proof.
  unfold componentDidUpdate, setFocusedIndex.
  destruct (negb _); simpl; destruct (_ && _); reflexivity.
Qed.

(** C5: a search update, for any text and from any state, leaves in
    [sOptions] the first 100 of the ranked options of [options] that match
    the text, and the cursor at 0; this is so for the handler alone and
    for the handler followed by the update hook. For the empty text every
    option matches, so [sOptions] is the first 100 of the ranked
    [options]. *)
Theorem search_update (val : string) (this : TabSwitcherModal) :
  let visible :=
    firstn MaxOptionsToDisplay
      (sortOptions (activeSessionIdx this)
         (filter (fun tab => matches tab val) (options this))) in
  sOptions (handleSearch val this) = visible /\
  focusedIdx (handleSearch val this) = 0 /\
  sOptions (fst (step (SearchChange val) this)) = visible /\
  focusedIdx (fst (step (SearchChange val) this)) = 0 /\
  sOptions (handleSearch "" this)
  = firstn MaxOptionsToDisplay (sortOptions (activeSessionIdx this) (options this)).
Proof.
  cbv zeta. unfold step, fst.
  rewrite componentDidUpdate_sOptions, componentDidUpdate_focusedIdx.
  rewrite !handleSearch_sOptions, handleSearch_focusedIdx, filter_matches_empty.
  repeat split. cbv zeta.
  destruct (_ && _) eqn:E; [|reflexivity].
  apply andb_prop in E. lia.
Qed.

(** ** What the handlers leave alone *)

Lemma handleSelect_state (index : Z) (this : TabSwitcherModal) :
  fst (handleSelect index this) = this.
Proof. unfold handleSelect. now destruct (JS.index _ _). Qed.

Lemma handleKeyDown_frame (key : string) (this : TabSwitcherModal) :
  let this' := fst (handleKeyDown key this) in
  options this' = options this /\
  sOptions this' = sOptions this /\
  activeSessionIdx this' = activeSessionIdx this.
Proof.
  cbv zeta. unfold handleKeyDown.
  destruct (String.eqb key "Escape"); [now repeat split|].
  destruct (_ || _); [now repeat split|].
  destruct (String.eqb key "Enter"); [|now repeat split].
  now rewrite handleSelect_state.
Qed.

Lemma run_cons (e : Event) (es : list Event) (this : TabSwitcherModal) :
  fst (run (e :: es) this) = fst (run es (fst (step e this))).
Proof.
  simpl. destruct (step e this) as [this1 effs1]. simpl.
  now destruct (run es this1).
Qed.

Lemma step_sOptions_capped (e : Event) (this : TabSwitcherModal) :
  (List.length (sOptions this) <= MaxOptionsToDisplay)%nat ->
  (List.length (sOptions (fst (step e this))) <= MaxOptionsToDisplay)%nat.
Proof.
  intros H. destruct e as [val|key|index].
  - unfold step, fst. rewrite componentDidUpdate_sOptions, handleSearch_sOptions.
    apply firstn_le_length.
  - unfold step. pose proof (handleKeyDown_frame key this) as (_ & Hs & _).
    destruct (handleKeyDown key this) as [this' effs]. simpl in *.
    now rewrite componentDidUpdate_sOptions, Hs.
  - unfold step. pose proof (handleSelect_state index this) as Hs.
    destruct (handleSelect index this) as [this' effs]. simpl in *.
    now rewrite componentDidUpdate_sOptions, Hs.
Qed.

(** C6: at most 100 options are visible: once the component is mounted,
    after a search update from any state whatever the text and however
    many options there are, and after any sequence of events. *)
Theorem visible_capped (g : Model.GlobalModel) (val : string)
    (this : TabSwitcherModal) (es : list Event) :
  (List.length (sOptions (mounted g)) <= 100)%nat /\
  (List.length (sOptions (handleSearch val this)) <= 100)%nat /\
  (List.length (sOptions (fst (step (SearchChange val) this))) <= 100)%nat /\
  (List.length (sOptions (fst (run es (mounted g)))) <= 100)%nat.
Proof.
  assert (Hm : (List.length (sOptions (mounted g)) <= MaxOptionsToDisplay)%nat)
    by apply firstn_le_length.
  split; [exact Hm|]. split; [|split].
  - rewrite handleSearch_sOptions. apply firstn_le_length.
  - unfold step, fst. rewrite componentDidUpdate_sOptions, handleSearch_sOptions.
    apply firstn_le_length.
  - generalize dependent (mounted g). clear.
    induction es as [|e es IH]; intros s Hs; [exact Hs|].
    rewrite run_cons. now apply IH, step_sOptions_capped.
Qed.

(** ** The snapshot stays as it was mounted *)


Lemma mounted_optionsRanked (g : Model.GlobalModel) : optionsRanked (mounted g).
Proof. unfold optionsRanked, mounted. simpl. apply sortOptions_sorted. Qed.

Lemma handleSearch_options (val : string) (this : TabSwitcherModal) :
  optionsRanked this -> options (handleSearch val this) = options this.
Proof.
  intros H. unfold handleSearch.
  destruct (String.eqb val ""); cbv zeta; cbn [options]; [|reflexivity].
  now apply sortOptions_in_order.
Qed.

Lemma step_options (e : Event) (this : TabSwitcherModal) :
  optionsRanked this ->
  options (fst (step e this)) = options this /\
  activeSessionIdx (fst (step e this)) = activeSessionIdx this.
Proof.
  intros H. destruct e as [val|key|index]; unfold step.
  - unfold fst.
    rewrite componentDidUpdate_options, componentDidUpdate_activeSessionIdx.
    now rewrite handleSearch_options, handleSearch_activeSessionIdx.
  - pose proof (handleKeyDown_frame key this) as (Ho & _ & Ha).
    destruct (handleKeyDown key this) as [this' effs]. simpl in *.
    now rewrite componentDidUpdate_options, componentDidUpdate_activeSessionIdx.
  - pose proof (handleSelect_state index this) as Hs.
    destruct (handleSelect index this) as [this' effs]. simpl in *.
    rewrite componentDidUpdate_options, componentDidUpdate_activeSessionIdx.
    now rewrite Hs.
Qed.

Lemma step_optionsRanked (e : Event) (this : TabSwitcherModal) :
  optionsRanked this -> optionsRanked (fst (step e this)).
Proof.
  intros H. destruct (step_options e this H) as [Ho Ha].
  unfold optionsRanked. now rewrite Ho, Ha.
Qed.

(** C9: once the component is mounted, no sequence of search updates
    (the empty text included), key events and selections changes
    [options]: the same elements in the same order. The empty search sorts
    the array in place, and finds it in order. *)
Theorem options_fixed (g : Model.GlobalModel) (es : list Event) :
  options (fst (run es (mounted g))) = options (mounted g).
Proof.
  pose proof (mounted_optionsRanked g) as H.
  generalize dependent (mounted g).
  induction es as [|e es IH]; intros s Hs; [reflexivity|].
  rewrite run_cons, IH by now apply step_optionsRanked.
  now apply step_options.
Qed.

(** ** The ranking keeps its elements *)

Lemma firstn_all_of {A} (n : nat) (l : list A) :
  (List.length l <= n)%nat -> firstn n l = l.
Proof. intros H. now apply firstn_all2. Qed.

(** C10: the ranking returns a permutation of its argument, no option
    dropped and none repeated. After a search update the visible options
    are the first 100 of the ranked matching options, and together with
    the ranked options from the 101st on (those the truncation drops)
    they are a permutation of the options that match: every matching
    option among the first 100 is visible, as often as it is in
    [options], and nothing else is. When at most 100 options match, the
    visible options are a permutation of all of them. A visible option is
    an option that matches, and is visible once when [options] has no
    repetition. *)
Theorem sortOptions_permutation (act : Z) (l : list SwitcherDataType)
    (val : string) (this : TabSwitcherModal) :
  let matching := filter (fun tab => matches tab val) (options this) in
  let ranked := sortOptions (activeSessionIdx this) matching in
  let visible := sOptions (handleSearch val this) in
  Permutation (sortOptions act l) l /\
  Permutation ranked matching /\
  visible = firstn 100 ranked /\
  visible ++ skipn 100 ranked = ranked /\
  Permutation (visible ++ skipn 100 ranked) matching /\
  ((List.length matching <= 100)%nat -> Permutation visible matching) /\
  (forall o i, (i < 100)%nat -> nth_error ranked i = Some o ->
     nth_error visible i = Some o) /\
  (forall o, In o visible -> In o (options this) /\ matches o val = true) /\
  (NoDup (options this) -> NoDup visible).
Proof.
  cbv zeta. split; [apply sort_perm|]. rewrite handleSearch_sOptions.
  change MaxOptionsToDisplay with 100%nat.
  set (matching := filter (fun tab => matches tab val) (options this)).
  set (ranked := sortOptions _ matching).
  assert (Hp : Permutation ranked matching) by apply sort_perm.
  split; [exact Hp|]. split; [reflexivity|].
  split; [apply firstn_skipn|].
  split; [now rewrite firstn_skipn|].
  split; [|split; [|split]].
  - intros Hlen. rewrite firstn_all_of; [exact Hp|].
    now rewrite (Permutation_length Hp).
  - intros o i Hi Ho.
    rewrite <- (firstn_skipn 100 ranked) in Ho.
    rewrite nth_error_app1 in Ho; [exact Ho|].
    rewrite length_firstn.
    assert (Hsome : nth_error (firstn 100 ranked ++ skipn 100 ranked) i <> None)
      by congruence.
    apply nth_error_Some in Hsome.
    rewrite firstn_skipn in Hsome. lia.
  - intros o Ho.
    assert (Hin : In o ranked).
    { rewrite <- (firstn_skipn 100 ranked). apply in_or_app. now left. }
    apply (Permutation_in _ Hp) in Hin. unfold matching in Hin.
    now apply filter_In in Hin.
  - intros Hnd.
    assert (Hr : NoDup ranked).
    { eapply Permutation_NoDup; [apply Permutation_sym, Hp|].
      now apply NoDup_filter. }
    rewrite <- (firstn_skipn 100 ranked) in Hr.
    now apply NoDup_app_remove_r in Hr.
Qed.

(** ** Committing a selection *)

(** C7: [handleSelect] never changes the component. With an index inside
    [sOptions] it asks for the switch to the tab and the session of the
    option at that index and then closes the switcher; with any other
    index (the empty list included) it does nothing at all. Enter is the
    same at the cursor. *)
Theorem handleSelect_commit (index : Z) (this : TabSwitcherModal) :
  let len := Z.of_nat (List.length (sOptions this)) in
  fst (handleSelect index this) = this /\
  (0 <= index < len ->
   exists o, nth_error (sOptions this) (Z.to_nat index) = Some o /\
     snd (handleSelect index this)
     = [SwitchScreen (screenId o) (sessionId o); PopModal]) /\
  (~ 0 <= index < len -> handleSelect index this = (this, [])) /\
  handleKeyDown "Enter" this = handleSelect (focusedIdx this) this.
Proof.
  cbv zeta. split; [apply handleSelect_state|]. split; [|split].
  - intros [H0 Hlt]. unfold handleSelect, JS.index.
    destruct (Z.ltb_spec index 0); [lia|].
    destruct (nth_error (sOptions this) (Z.to_nat index)) as [o|] eqn:E.
    + exists o. now split.
    + apply nth_error_None in E. lia.
  - intros Hout. unfold handleSelect, JS.index.
    destruct (Z.ltb_spec index 0); [reflexivity|].
    destruct (nth_error (sOptions this) (Z.to_nat index)) as [o|] eqn:E;
      [|reflexivity].
    assert (nth_error (sOptions this) (Z.to_nat index) <> None) as Hn
      by congruence.
    apply nth_error_Some in Hn. lia.
  - reflexivity.
Qed.

(** ** The filter against the specification's predicate *)



Lemma includes_slash_cons (c : ascii) (s : string) :
  JS.includes (String c s) "/" = Ascii.eqb c "/" || JS.includes s "/".
Proof.
  change (JS.includes (String c s) "/")
    with (prefix "/" (String c s) || JS.includes s "/").
  f_equal.
  change (prefix "/" (String c s))
    with (if ascii_dec "/" c then prefix "" s else false).
  destruct (ascii_dec "/" c) as [<-|Hne].
  - now destruct s.
  - destruct (Ascii.eqb_spec c "/"); [congruence | reflexivity].
Qed.

Lemma split_nonempty (sep : ascii) (s : string) : JS.split sep s <> [].
Proof.
  destruct s as [|c s]; simpl; [discriminate|].
  destruct (Ascii.eqb c sep); [discriminate|].
  destruct (JS.split sep s); discriminate.
Qed.

Lemma split_no_slash (a : string) :
  JS.includes a "/" = false -> JS.split "/" a = [a].
Proof.
  induction a as [|c a IH]; intros H; [reflexivity|].
  rewrite includes_slash_cons in H. apply orb_false_elim in H as [Hc Ha].
  simpl. rewrite Hc, (IH Ha). reflexivity.
Qed.

Lemma split_at_slash (a r : string) :
  JS.includes a "/" = false ->
  JS.split "/" (a ++ String "/" r)%string = a :: JS.split "/" r.
Proof.
  induction a as [|c a IH]; intros H; [reflexivity|].
  rewrite includes_slash_cons in H. apply orb_false_elim in H as [Hc Ha].
  simpl. rewrite Hc, (IH Ha). reflexivity.
Qed.

Lemma includes_slash_app (a r : string) :
  JS.includes (a ++ String "/" r)%string "/" = true.
Proof.
  induction a as [|c a IH].
  - cbn [append]. now rewrite includes_slash_cons.
  - change (JS.includes (String c (a ++ String "/" r)) "/" = true).
    rewrite includes_slash_cons, IH. apply orb_true_r.
Qed.

Lemma beforeSlash_app (a r : string) :
  JS.includes a "/" = false -> beforeSlash (a ++ String "/" r) = a.
Proof.
  induction a as [|c a IH]; intros H; [reflexivity|].
  rewrite includes_slash_cons in H. apply orb_false_elim in H as [Hc Ha].
  simpl. now rewrite Hc, (IH Ha).
Qed.

Lemma afterSlash_app (a r : string) :
  JS.includes a "/" = false -> afterSlash (a ++ String "/" r) = r.
Proof.
  induction a as [|c a IH]; intros H; [reflexivity|].
  rewrite includes_slash_cons in H. apply orb_false_elim in H as [Hc Ha].
  simpl. now rewrite Hc, (IH Ha).
Qed.

(** Where the query reads the same in lower case, the filter is the
    specification's predicate. *)
Lemma matches_lower_case_query (tab : SwitcherDataType) (q : string) :
  JS.includes q "/" = false -> JS.toLowerCase q = q ->
  matches tab q = matchesInsensitive tab q.
Proof.
  intros Hs Hl. unfold matches, matchesInsensitive. now rewrite Hs, Hl.
Qed.

(** C1: the query [W] has no slash and, lower-cased, occurs in the
    lower-cased session name of the option [work/logs]; the filter
    compares the query as typed, and rejects the option. *)
Theorem matches_upper_case_query :
  JS.includes "W" "/" = false /\
  matchesInsensitive Scenario.workLogs "W" = true /\
  matches Scenario.workLogs "W" = false /\
  matches Scenario.workLogs "W/" = true.
Proof. repeat split. Qed.

(** C4, as stated, fails: with two slashes in the query the filter
    takes the text between them as the tab query, not all that follows
    the first one. *)
Lemma matches_second_slash :
  JS.includes "work/build/x" "/" = true /\
  matches Scenario.workBuild "work/build/x" = true /\
  matchesFirstSlash Scenario.workBuild "work/build/x" = false.
Proof. repeat split. Qed.

(** With slash-free [a] and [b], the queries [a/b] and [a/b/...] ask
    for [a] in the session name and [b] in the tab name; on [a/b] this is
    the specification's predicate. *)
Lemma matches_slash_segments (tab : SwitcherDataType) (a b : string) :
  JS.includes a "/" = false -> JS.includes b "/" = false ->
  let expected :=
    JS.includes (JS.toLowerCase (sessionName tab)) (JS.toLowerCase (JS.trim a)) &&
    JS.includes (JS.toLowerCase (screenName tab)) (JS.toLowerCase (JS.trim b)) in
  matches tab (a ++ "/" ++ b) = expected /\
  matchesFirstSlash tab (a ++ "/" ++ b) = expected /\
  (forall rest, matches tab (a ++ "/" ++ b ++ "/" ++ rest) = expected).
Proof.
  intros Ha Hb. cbv zeta. cbn [append]. split; [|split].
  - unfold matches.
    rewrite includes_slash_app, split_at_slash, split_no_slash by assumption.
    reflexivity.
  - unfold matchesFirstSlash.
    now rewrite beforeSlash_app, afterSlash_app.
  - intros rest. unfold matches.
    rewrite includes_slash_app, !split_at_slash by assumption.
    reflexivity.
Qed.

Lemma beforeSlash_no_slash (r : string) :
  JS.includes r "/" = false -> beforeSlash r = r.
Proof.
  induction r as [|c r IH]; intros H; [reflexivity|].
  rewrite includes_slash_cons in H. apply orb_false_elim in H as [Hc Hr].
  simpl. now rewrite Hc, (IH Hr).
Qed.

(** A query with a slash is its text before the first slash, the slash,
    and its text after it. *)
Lemma query_cut (q : string) :
  JS.includes q "/" = true ->
  q = (beforeSlash q ++ "/" ++ afterSlash q)%string /\
  JS.includes (beforeSlash q) "/" = false.
Proof.
  induction q as [|c q IH]; intros H; [discriminate|].
  rewrite includes_slash_cons in H. cbn [beforeSlash afterSlash].
  destruct (Ascii.eqb_spec c "/") as [->|Hc].
  - now split.
  - simpl in H. destruct (IH H) as [Heq Hno]. split.
    + cbn [append]. f_equal. exact Heq.
    + rewrite includes_slash_cons, Hno.
      destruct (Ascii.eqb_spec c "/"); [contradiction | reflexivity].
Qed.

(** C4, amended: for a query with a slash the session query is the text
    before the first slash and the tab query the text from there up to the
    next slash (all that follows the first slash when there is no other),
    both trimmed and lower-cased; the option matches exactly when its
    lower-cased session name contains the one and its lower-cased tab name
    the other. With one slash only this is the specification's
    predicate. *)
Theorem matches_slash_query (tab : SwitcherDataType) (q : string)
    (Hq : JS.includes q "/" = true) :
  matches tab q
  = (JS.includes (JS.toLowerCase (sessionName tab))
       (JS.toLowerCase (JS.trim (beforeSlash q))) &&
     JS.includes (JS.toLowerCase (screenName tab))
       (JS.toLowerCase (JS.trim (beforeSlash (afterSlash q))))) /\
  (JS.includes (afterSlash q) "/" = false ->
   matches tab q = matchesFirstSlash tab q).
Proof.
  destruct (query_cut q Hq) as [Heq Ha].
  assert (Hm : matches tab q
    = (JS.includes (JS.toLowerCase (sessionName tab))
         (JS.toLowerCase (JS.trim (beforeSlash q))) &&
       JS.includes (JS.toLowerCase (screenName tab))
         (JS.toLowerCase (JS.trim (beforeSlash (afterSlash q)))))).
  { remember (beforeSlash q) as a eqn:Ea.
    remember (afterSlash q) as r eqn:Er. clear Ea Er. subst q.
    destruct (JS.includes r "/") eqn:Hr.
    - destruct (query_cut r Hr) as [Hreq Hb].
      remember (beforeSlash r) as b eqn:Eb. rewrite Hreq.
      now apply (matches_slash_segments tab a b Ha Hb).
    - rewrite (beforeSlash_no_slash r Hr).
      now apply (matches_slash_segments tab a r Ha Hr). }
  split; [exact Hm|].
  intros Hr. rewrite Hm. unfold matchesFirstSlash.
  now rewrite (beforeSlash_no_slash _ Hr).
Qed.

Lemma matches_slash_query_witness :
  matches Scenario.workBuild "work/build/x"
  = (JS.includes "work" "work" && JS.includes "build" "build") /\
  (JS.includes "build/x" "/" = false ->
   matches Scenario.workBuild "work/build/x"
   = matchesFirstSlash Scenario.workBuild "work/build/x").
Proof.
  exact (matches_slash_query Scenario.workBuild "work/build/x" eq_refl).
Defined.

(** ** The cursor *)


Lemma componentDidUpdate_cursorInRange (this : TabSwitcherModal) :
  cursorInRange this -> cursorInRange (componentDidUpdate this).
Proof.
  unfold cursorInRange.
  rewrite componentDidUpdate_sOptions, componentDidUpdate_focusedIdx. cbv zeta.
  destruct (Z.geb_spec (focusedIdx this) (Z.of_nat (List.length (sOptions this))));
    destruct (Z.gtb_spec (Z.of_nat (List.length (sOptions this))) 0);
    simpl; lia.
Qed.

(** On a cursor in range the update hook has nothing to clamp. *)
Lemma componentDidUpdate_no_clamp (this : TabSwitcherModal) :
  cursorInRange this ->
  focusedIdx (componentDidUpdate this) = focusedIdx this.
Proof.
  unfold cursorInRange. rewrite componentDidUpdate_focusedIdx. cbv zeta.
  destruct (Z.geb_spec (focusedIdx this) (Z.of_nat (List.length (sOptions this))));
    destruct (Z.gtb_spec (Z.of_nat (List.length (sOptions this))) 0);
    simpl; lia.
Qed.

Lemma handleKeyDown_cursorInRange (key : string) (this : TabSwitcherModal) :
  cursorInRange this -> cursorInRange (fst (handleKeyDown key this)).
Proof.
  intros H. unfold handleKeyDown.
  destruct (String.eqb key "Escape"); [exact H|].
  destruct (_ || _).
  - unfold cursorInRange, calculateNewIndex, setFocusedIndex, fst in *.
    cbn [sOptions focusedIdx].
    destruct (String.eqb key "ArrowUp"); lia.
  - destruct (String.eqb key "Enter"); [|exact H].
    now rewrite handleSelect_state.
Qed.

Lemma step_cursorInRange (e : Event) (this : TabSwitcherModal) :
  cursorInRange this -> cursorInRange (fst (step e this)).
Proof.
  intros H. destruct e as [val|key|index]; unfold step.
  - unfold fst. apply componentDidUpdate_cursorInRange.
    unfold cursorInRange. rewrite handleSearch_focusedIdx. lia.
  - pose proof (handleKeyDown_cursorInRange key this H) as Hk.
    destruct (handleKeyDown key this) as [this' effs].
    now apply componentDidUpdate_cursorInRange.
  - pose proof (handleSelect_state index this) as Hs.
    destruct (handleSelect index this) as [this' effs]. simpl in *. subst.
    now apply componentDidUpdate_cursorInRange.
Qed.

(** In every state the mounted component reaches the cursor is inside
    the visible options, or at -1 or 0 when nothing is visible. *)
Lemma reachable_cursorInRange (g : Model.GlobalModel) (es : list Event) :
  cursorInRange (fst (run es (mounted g))).
Proof.
  assert (H : cursorInRange (mounted g)).
  { unfold cursorInRange, mounted, componentDidMount. cbn [focusedIdx newModal].
    lia. }
  generalize dependent (mounted g).
  induction es as [|e es IH]; intros s Hs; [exact Hs|].
  rewrite run_cons. now apply IH, step_cursorInRange.
Qed.

(** C3: with no visible option, ArrowDown takes the cursor from 0 to
    [min(1, -1)], below the range the specification gives it; ArrowUp
    and the top of the list stop at 0. The same happens after a search
    that matches nothing. *)
Theorem arrow_down_leaves_range :
  let this := fst (step (KeyDown "ArrowDown") (mounted Scenario.emptyRegistry)) in
  let that := fst (run [SearchChange "zzz"; KeyDown "ArrowDown"]
                     (mounted Scenario.registry)) in
  sOptions this = [] /\ focusedIdx this = -1 /\
  sOptions that = [] /\ focusedIdx that = -1 /\
  focusedIdx (fst (step (KeyDown "ArrowUp") (mounted Scenario.registry))) = 0.
Proof. repeat split. Qed.

(** ** The component without options *)

Lemma sortOptions_nil (act : Z) : sortOptions act [] = [].
Proof. reflexivity. Qed.

(** Without options nothing is ever visible. *)
Lemma empty_options_visible (val : string) (this : TabSwitcherModal) :
  options this = [] -> sOptions (handleSearch val this) = [].
Proof.
  intros H. rewrite handleSearch_sOptions, H. reflexivity.
Qed.

(** Without visible options ArrowUp at 0, Enter and Escape leave the
    component as it is; Escape alone has an effect. *)
Lemma empty_visible_keys (this : TabSwitcherModal) :
  sOptions this = [] -> focusedIdx this = 0 ->
  handleKeyDown "ArrowUp" this = (this, []) /\
  handleKeyDown "Enter" this = (this, []) /\
  handleKeyDown "Escape" this = (this, [PopModal]).
Proof.
  intros Hs Hf. unfold handleKeyDown, handleSelect, calculateNewIndex,
    setFocusedIndex, JS.index.
  cbn [String.eqb Ascii.eqb Bool.eqb orb andb]. rewrite Hs, Hf.
  destruct this; simpl in *; subst; repeat split.
Qed.

(** C8: with an empty registry the component mounts with no option and
    none visible, and ArrowUp and Enter change nothing; ArrowDown is not
    idle: it moves the cursor to -1, and ArrowUp then moves it back. *)
Theorem empty_arrow_down_not_idle :
  let this := mounted Scenario.emptyRegistry in
  options this = [] /\ sOptions this = [] /\ focusedIdx this = 0 /\
  step (KeyDown "ArrowUp") this = (this, []) /\
  step (KeyDown "Enter") this = (this, []) /\
  step (KeyDown "ArrowDown") this
  = ({| options := []; sOptions := []; focusedIdx := -1;
        activeSessionIdx := 0; prevFocusedIdx := -1 |}, []) /\
  focusedIdx (fst (run [KeyDown "ArrowDown"; KeyDown "ArrowUp"] this)) = 0.
Proof. repeat split. Qed.

(** * Further properties of the switcher *)

(** ** The ranking as a function of the set of options *)

Lemma compareOptions_sameKey (act : Z) (a b : SwitcherDataType) :
  sameKey a b = true -> compareOptions act a b = 0.
Proof.
  unfold sameKey, compareOptions. intros H.
  apply andb_prop in H as [Hs Hi]. apply Z.eqb_eq in Hs, Hi.
  rewrite Hs, Hi.
  destruct (sessionIdx b =? act); simpl; [lia|].
  rewrite Z.eqb_refl. lia.
Qed.

Lemma compareOptions_antisym (act : Z) (a b : SwitcherDataType) :
  compareOptions act a b <= 0 -> compareOptions act b a <= 0 ->
  sameKey a b = true.
Proof.
  unfold compareOptions, sameKey.
  destruct (Z.eqb_spec (sessionIdx a) act), (Z.eqb_spec (sessionIdx b) act),
    (Z.eqb_spec (sessionIdx a) (sessionIdx b)),
    (Z.eqb_spec (sessionIdx b) (sessionIdx a)),
    (Z.eqb_spec (screenIdx a) (screenIdx b)); simpl; lia.
Qed.

Section SortedUnique.
Context {A : Type} (R : A -> A -> Prop).

(** Two arrangements of the same elements that are both in order are
    the same arrangement, when elements that go both ways are equal. *)
Lemma sorted_permutation_unique (l1 l2 : list A) :
  (forall a b, In a l1 -> In b l1 -> R a b -> R b a -> a = b) ->
  StronglySorted R l1 -> StronglySorted R l2 -> Permutation l1 l2 ->
  l1 = l2.
Proof.
  revert l2. induction l1 as [|x l1 IH]; intros l2 Hanti H1 H2 Hp.
  - apply Permutation_nil in Hp. now subst.
  - destruct l2 as [|y l2].
    { apply Permutation_sym, Permutation_nil in Hp. discriminate. }
    apply StronglySorted_inv in H1 as [H1 Hx].
    apply StronglySorted_inv in H2 as [H2 Hy].
    assert (Hxy : x = y).
    { assert (Hin1 : In x (y :: l2))
        by (eapply Permutation_in; [exact Hp | now left]).
      assert (Hin2 : In y (x :: l1))
        by (eapply Permutation_in; [apply Permutation_sym, Hp | now left]).
      destruct Hin1 as [->|Hin1]; [reflexivity|].
      destruct Hin2 as [->|Hin2]; [reflexivity|].
      rewrite Forall_forall in Hx, Hy.
      apply Hanti; [now left | now right | now apply Hx | now apply Hy]. }
    subst y. f_equal. apply Permutation_cons_inv in Hp.
    apply IH; try assumption.
    intros a b Ha Hb. apply Hanti; now right.
Qed.

End SortedUnique.

Lemma firstn_sorted (act : Z) (n : nat) (l : list SwitcherDataType) :
  Sorted (fun a b => compareOptions act a b <= 0) l ->
  Sorted (fun a b => compareOptions act a b <= 0) (firstn n l).
Proof.
  revert n. induction l as [|x l IH]; intros n H.
  - now rewrite firstn_nil.
  - destruct n as [|n]; [constructor|]. simpl.
    apply Sorted_inv in H as [Hs Hhd]. constructor; [now apply IH|].
    destruct Hhd as [|y l' Hxy]; [rewrite firstn_nil; constructor|].
    destruct n; simpl; now constructor.
Qed.

(** X1: ranking is idempotent: ranking a ranked list, or the first
    [n] options of one (the visible options), gives the same list
    back. *)
Theorem ranking_idempotent (act : Z) (n : nat) (l : list SwitcherDataType) :
  sortOptions act (sortOptions act l) = sortOptions act l /\
  sortOptions act (firstn n (sortOptions act l))
  = firstn n (sortOptions act l).
Proof.
  split; apply sortOptions_in_order.
  - apply sortOptions_sorted.
  - apply firstn_sorted, sortOptions_sorted.
Qed.

(** X2: when no two options share both indices, the ranked list
    depends on the options only, not on the order they are handed in:
    two arrangements of the same options rank to the same list. *)
Theorem ranking_order_independent (act : Z) (l1 l2 : list SwitcherDataType) :
  distinctKeys l1 -> Permutation l1 l2 ->
  sortOptions act l1 = sortOptions act l2.
Proof.
  intros Hd Hp.
  apply (sorted_permutation_unique (fun a b => compareOptions act a b <= 0)).
  - intros a b Ha Hb Hab Hba.
    apply Hd.
    + eapply Permutation_in; [apply sort_perm | exact Ha].
    + eapply Permutation_in; [apply sort_perm | exact Hb].
    + now apply compareOptions_antisym with act.
  - apply sort_orders; [apply compareOptions_total | apply compareOptions_trans].
  - apply sort_orders; [apply compareOptions_total | apply compareOptions_trans].
  - eapply perm_trans; [apply sort_perm|].
    eapply perm_trans; [exact Hp | apply Permutation_sym, sort_perm].
Qed.

Lemma ranking_order_independent_witness :
  sortOptions 0 [Scenario.playLogs; Scenario.workBuild; Scenario.workLogs]
  = sortOptions 0 [Scenario.workLogs; Scenario.playLogs; Scenario.workBuild].
Proof.
  apply (ranking_order_independent 0
           [Scenario.playLogs; Scenario.workBuild; Scenario.workLogs]
           [Scenario.workLogs; Scenario.playLogs; Scenario.workBuild]).
  - intros a b Ha Hb. simpl in Ha, Hb.
    destruct Ha as [<-|[<-|[<-|[]]]], Hb as [<-|[<-|[<-|[]]]];
      vm_compute; intros H; (reflexivity || discriminate).
  - apply (Permutation_app_comm [Scenario.playLogs; Scenario.workBuild]
             [Scenario.workLogs]).
Defined.

(** ** Ties *)

Lemma sameKey_sym (a b : SwitcherDataType) : sameKey a b = sameKey b a.
Proof.
  unfold sameKey. now rewrite (Z.eqb_sym (sessionIdx a)), (Z.eqb_sym (screenIdx a)).
Qed.

Lemma sameKey_trans (a b c : SwitcherDataType) :
  sameKey a b = true -> sameKey b c = true -> sameKey a c = true.
Proof.
  unfold sameKey. intros H1 H2.
  apply andb_prop in H1 as [H1 H1'], H2 as [H2 H2'].
  apply Z.eqb_eq in H1, H1', H2, H2'.
  apply andb_true_intro. split; apply Z.eqb_eq; congruence.
Qed.

Lemma insert_keeps_ties (act : Z) (k x : SwitcherDataType)
    (l : list SwitcherDataType) :
  filter (sameKey k) (JS.insert (compareOptions act) x l)
  = filter (sameKey k) (x :: l).
Proof.
  induction l as [|y l IH]; [reflexivity|].
  cbn [JS.insert].
  destruct (Z.leb_spec (compareOptions act x y) 0) as [Hle|Hgt];
    [reflexivity|].
  cbn [filter] in *. rewrite IH.
  destruct (sameKey k x) eqn:Ex, (sameKey k y) eqn:Ey; try reflexivity.
  rewrite sameKey_sym in Ex.
  pose proof (compareOptions_sameKey act x y (sameKey_trans x k y Ex Ey)).
  lia.
Qed.

(** X3: the ranking is stable: the options that share the session
    index and the tab index of an option [k] come out in the order they
    went in. *)
Theorem ranking_stable (act : Z) (k : SwitcherDataType)
    (l : list SwitcherDataType) :
  filter (sameKey k) (sortOptions act l) = filter (sameKey k) l.
Proof.
  unfold sortOptions. induction l as [|x l IH]; [reflexivity|].
  cbn [JS.sort]. rewrite insert_keeps_ties. cbn [filter]. now rewrite IH.
Qed.

(** ** The visible options in every state *)

Lemma step_sOptions (e : Event) (this : TabSwitcherModal) :
  sOptions (fst (step e this))
  = match e with
    | SearchChange val =>
        firstn MaxOptionsToDisplay
          (sortOptions (activeSessionIdx this)
             (filter (fun tab => matches tab val) (options this)))
    | _ => sOptions this
    end.
Proof.
  destruct e as [val|key|index]; unfold step.
  - unfold fst. now rewrite componentDidUpdate_sOptions, handleSearch_sOptions.
  - pose proof (handleKeyDown_frame key this) as (_ & Hs & _).
    destruct (handleKeyDown key this) as [this' effs]. simpl in *.
    now rewrite componentDidUpdate_sOptions.
  - pose proof (handleSelect_state index this) as Hs.
    destruct (handleSelect index this) as [this' effs]. simpl in *.
    now rewrite componentDidUpdate_sOptions, Hs.
Qed.

Lemma run_visible (es : list Event) :
  forall (this : TabSwitcherModal) (q0 : string),
    optionsRanked this ->
    sOptions this
    = firstn MaxOptionsToDisplay
        (sortOptions (activeSessionIdx this)
           (filter (fun tab => matches tab q0) (options this))) ->
    sOptions (fst (run es this))
    = firstn MaxOptionsToDisplay
        (sortOptions (activeSessionIdx this)
           (filter (fun tab => matches tab (lastQuery q0 es)) (options this)))
    /\ activeSessionIdx (fst (run es this)) = activeSessionIdx this.
Proof.
  induction es as [|e es IH]; intros this q0 Hr Hv; [now split|].
  rewrite run_cons.
  destruct (step_options e this Hr) as [Ho Ha].
  pose proof (step_optionsRanked e this Hr) as Hr'.
  assert (Hv' : sOptions (fst (step e this))
    = firstn MaxOptionsToDisplay
        (sortOptions (activeSessionIdx (fst (step e this)))
           (filter (fun tab => matches tab
                      match e with SearchChange val => val | _ => q0 end)
              (options (fst (step e this)))))).
  { rewrite step_sOptions, Ho, Ha. now destruct e. }
  destruct (IH _ _ Hr' Hv') as [Hs1 Ha1].
  rewrite Hs1, Ha1, Ho, Ha. now split.
Qed.

(** X4: in every state the mounted component reaches, the visible
    options are the first 100 of the ranked options of the snapshot that
    match the text of the last search (the empty text before any search),
    ranked around the active session the registry had at mount. *)
Theorem visible_in_every_state (g : Model.GlobalModel) (es : list Event) :
  let this := fst (run es (mounted g)) in
  sOptions this
  = firstn MaxOptionsToDisplay
      (sortOptions (Model.activeSessionIdx g)
         (filter (fun tab => matches tab (lastQuery "" es))
            (options (mounted g)))) /\
  activeSessionIdx this = Model.activeSessionIdx g.
Proof.
  cbv zeta.
  apply (run_visible es (mounted g) "" (mounted_optionsRanked g)).
  rewrite filter_matches_empty.
  unfold mounted, componentDidMount. cbn [sOptions options activeSessionIdx].
  unfold JS.slice0. now rewrite sortOptions_idempotent.
Qed.

(** ** Enter in a reachable state *)

(** X5: in every state the mounted component reaches, Enter does
    nothing when no option is visible, and otherwise there is an option
    at the cursor and Enter asks for the switch to it and closes the
    switcher, leaving the component as it is. *)
Theorem enter_commits_at_cursor (g : Model.GlobalModel) (es : list Event) :
  let this := fst (run es (mounted g)) in
  match sOptions this with
  | [] => handleKeyDown "Enter" this = (this, [])
  | _ :: _ =>
      exists o, JS.index (sOptions this) (focusedIdx this) = Some o /\
        handleKeyDown "Enter" this
        = (this, [SwitchScreen (screenId o) (sessionId o); PopModal])
  end.
Proof.
  cbv zeta. pose proof (reachable_cursorInRange g es) as H.
  set (this := fst (run es (mounted g))) in *.
  change (handleKeyDown "Enter" this) with (handleSelect (focusedIdx this) this).
  unfold handleSelect, cursorInRange in *.
  destruct (sOptions this) as [|o0 rest] eqn:E.
  - unfold JS.index. destruct (focusedIdx this <? 0); [reflexivity|].
    now destruct (Z.to_nat (focusedIdx this)).
  - destruct H as [[H _]|H]; [simpl in H; lia|].
    unfold JS.index. destruct (Z.ltb_spec (focusedIdx this) 0); [lia|].
    destruct (nth_error (o0 :: rest) (Z.to_nat (focusedIdx this))) as [o|] eqn:En.
    + exists o. now split.
    + apply nth_error_None in En. lia.
Qed.

(** ** Search, then Enter *)

(** X6: from any state, a search followed by Enter switches to the
    first of the ranked options that match the text, and closes; when
    nothing matches it does nothing and the switcher stays open. *)
Theorem search_then_enter (val : string) (this : TabSwitcherModal) :
  snd (run [SearchChange val; KeyDown "Enter"] this)
  = match sortOptions (activeSessionIdx this)
            (filter (fun tab => matches tab val) (options this)) with
    | [] => []
    | o :: _ => [SwitchScreen (screenId o) (sessionId o); PopModal]
    end.
Proof.
  cbn [run].
  pose proof (step_sOptions (SearchChange val) this) as Hs.
  assert (Hf : focusedIdx (fst (step (SearchChange val) this)) = 0).
  { unfold step, fst.
    rewrite componentDidUpdate_focusedIdx, handleSearch_focusedIdx. cbv zeta.
    destruct (_ && _) eqn:E; [|reflexivity]. apply andb_prop in E. lia. }
  destruct (step (SearchChange val) this) as [this1 effs1] eqn:E1.
  assert (effs1 = []) as -> by (unfold step in E1; now inversion E1).
  cbn [fst] in Hs, Hf.
  unfold step. change (handleKeyDown "Enter" this1)
    with (handleSelect (focusedIdx this1) this1).
  unfold handleSelect. rewrite Hf, Hs.
  destruct (sortOptions _ _) as [|o rest]; reflexivity.
Qed.

(** ** The snapshot *)

Lemma snapshotScreen_live (oSessions : list Model.Session)
    (oScreen : Model.Screen) :
  hasLiveSession oSessions oScreen = true ->
  exists data, snapshotScreen oSessions oScreen = Some data /\
    screenId data = Model.screenId oScreen.
Proof.
  unfold hasLiveSession, snapshotScreen. intros H.
  apply existsb_exists in H as (s & Hin & Hs).
  destruct (find _ oSessions) as [found|] eqn:E.
  - eexists. split; reflexivity.
  - now rewrite (find_none _ _ E s Hin) in Hs.
Qed.

Lemma snapshotScreen_dead (oSessions : list Model.Session)
    (oScreen : Model.Screen) :
  hasLiveSession oSessions oScreen = false ->
  snapshotScreen oSessions oScreen = None.
Proof.
  unfold hasLiveSession, snapshotScreen. intros H.
  destruct (find _ oSessions) as [found|] eqn:E; [|reflexivity].
  apply find_some in E as [Hin Hs].
  assert (Ht : existsb
    (fun s => String.eqb (Model.sessionId s) (Model.ownerId oScreen)
              && Bool.eqb (Model.archived s) false) oSessions = true)
    by (apply existsb_exists; eauto).
  congruence.
Qed.

Lemma snapshot_screens (oSessions : list Model.Session)
    (oScreens : list Model.Screen) :
  map screenId (snapshot oSessions oScreens)
  = map Model.screenId (filter (hasLiveSession oSessions) oScreens).
Proof.
  induction oScreens as [|oScreen rest IH]; [reflexivity|].
  cbn [snapshot filter].
  destruct (hasLiveSession oSessions oScreen) eqn:E.
  - destruct (snapshotScreen_live _ _ E) as (data & -> & Hid).
    cbn [map]. now rewrite Hid, IH.
  - now rewrite (snapshotScreen_dead _ _ E).
Qed.

Lemma snapshot_origin (oSessions : list Model.Session)
    (oScreens : list Model.Screen) (o : SwitcherDataType) :
  In o (snapshot oSessions oScreens) ->
  exists oScreen s,
    In oScreen oScreens /\ In s oSessions /\
    Model.sessionId s = Model.ownerId oScreen /\ Model.archived s = false /\
    screenId o = Model.screenId oScreen /\ sessionId o = Model.sessionId s /\
    screenName o = Model.screenName oScreen /\ sessionName o = Model.name s /\
    screenIdx o = Model.screenIdx oScreen /\ sessionIdx o = Model.sessionIdx s.
Proof.
  induction oScreens as [|oScreen rest IH]; [intros []|].
  cbn [snapshot]. unfold snapshotScreen.
  destruct (find _ oSessions) as [found|] eqn:E.
  - intros [<-|Hin].
    + apply find_some in E as [Hin Hs].
      apply andb_prop in Hs as [Hid Harch].
      apply String.eqb_eq in Hid. apply Bool.eqb_prop in Harch.
      exists oScreen, found. cbn. split; [now left|]. repeat split; auto.
    + destruct (IH Hin) as (sc & s & H1 & H2). exists sc, s.
      split; [now right | exact H2].
  - intros Hin. destruct (IH Hin) as (sc & s & H1 & H2). exists sc, s.
    split; [now right | exact H2].
Qed.

(** X7: the snapshot taken at mount keeps exactly the screens whose
    session is listed and not archived: the tab ids of the options are,
    up to the ranking's reordering, those of these screens, one option
    per screen; with no such screen there is no option. *)
Theorem mounted_snapshot (g : Model.GlobalModel) :
  let live :=
    filter (hasLiveSession (Model.sessionList g)) (Model.screenMap g) in
  Permutation (map screenId (options (mounted g))) (map Model.screenId live) /\
  List.length (options (mounted g)) = List.length live /\
  (live = [] -> options (mounted g) = [] /\ sOptions (mounted g) = []).
Proof.
  cbv zeta. unfold mounted, componentDidMount.
  cbn [options sOptions newModal app].
  set (snap := snapshot (Model.sessionList g) (Model.screenMap g)).
  assert (Hp : Permutation (map screenId (sortOptions (Model.activeSessionIdx g) snap))
                 (map Model.screenId
                    (filter (hasLiveSession (Model.sessionList g)) (Model.screenMap g)))).
  { unfold snap. rewrite <- snapshot_screens. apply Permutation_map, sort_perm. }
  split; [exact Hp|]. split.
  - apply Permutation_length in Hp. now rewrite !length_map in Hp.
  - intros Hl. rewrite Hl in Hp. apply Permutation_sym, Permutation_nil in Hp.
    apply map_eq_nil in Hp. now rewrite Hp.
Qed.

(** ** What the switcher may switch to *)

Lemma snd_run_cons (e : Event) (es : list Event) (this : TabSwitcherModal) :
  snd (run (e :: es) this)
  = snd (step e this) ++ snd (run es (fst (step e this))).
Proof.
  simpl. destruct (step e this) as [this1 effs1]. simpl.
  now destruct (run es this1).
Qed.

Lemma handleSelect_effects (index : Z) (this : TabSwitcherModal)
    (sid ssid : string) :
  In (SwitchScreen sid ssid) (snd (handleSelect index this)) ->
  exists o, In o (sOptions this) /\ screenId o = sid /\ sessionId o = ssid.
Proof.
  unfold handleSelect, JS.index.
  destruct (index <? 0); [intros []|].
  destruct (nth_error (sOptions this) (Z.to_nat index)) as [o|] eqn:E;
    [|intros []].
  apply nth_error_In in E. cbn.
  intros [H|[H|[]]]; [|discriminate].
  injection H as <- <-. now exists o.
Qed.

Lemma step_effects (e : Event) (this : TabSwitcherModal) (sid ssid : string) :
  In (SwitchScreen sid ssid) (snd (step e this)) ->
  exists o, In o (sOptions this) /\ screenId o = sid /\ sessionId o = ssid.
Proof.
  destruct e as [val|key|index]; unfold step.
  - intros [].
  - destruct (handleKeyDown key this) as [this' effs] eqn:E. cbn [snd].
    unfold handleKeyDown in E.
    destruct (String.eqb key "Escape").
    { inversion E; subst. intros [H|[]]. discriminate. }
    destruct (_ || _). { inversion E; subst. intros []. }
    destruct (String.eqb key "Enter"); [|inversion E; subst; intros []].
    intros H. apply (handleSelect_effects (focusedIdx this)).
    now rewrite E.
  - destruct (handleSelect index this) as [this' effs] eqn:E. cbn [snd].
    intros H. apply (handleSelect_effects index). now rewrite E.
Qed.

Lemma firstn_In {A} (n : nat) (l : list A) (x : A) :
  In x (firstn n l) -> In x l.
Proof.
  intros H. rewrite <- (firstn_skipn n l). apply in_or_app. now left.
Qed.

Lemma step_visible_incl (e : Event) (this : TabSwitcherModal) :
  optionsRanked this -> incl (sOptions this) (options this) ->
  incl (sOptions (fst (step e this))) (options (fst (step e this))).
Proof.
  intros Hr Hi. destruct (step_options e this Hr) as [Ho _].
  rewrite Ho, step_sOptions. destruct e as [val|key|index]; try exact Hi.
  intros o Ho'. apply firstn_In in Ho'.
  apply (Permutation_in _ (sort_perm _ _)) in Ho'.
  now apply filter_In in Ho' as [Ho' _].
Qed.

Lemma run_effects (es : list Event) (sid ssid : string) :
  forall this,
    optionsRanked this -> incl (sOptions this) (options this) ->
    In (SwitchScreen sid ssid) (snd (run es this)) ->
    exists o, In o (options this) /\ screenId o = sid /\ sessionId o = ssid.
Proof.
  induction es as [|e es IH]; intros this Hr Hi; [intros []|].
  rewrite snd_run_cons. intros H. apply in_app_or in H as [H|H].
  - destruct (step_effects e this sid ssid H) as (o & Ho & Hid).
    exists o. split; [now apply Hi | exact Hid].
  - destruct (step_options e this Hr) as [Ho _]. rewrite <- Ho.
    apply IH; [now apply step_optionsRanked | now apply step_visible_incl | exact H].
Qed.

(** X8: whatever the events, the switcher only ever asks for a switch
    to a tab of the registry it was mounted on, together with the session
    that owns the tab, and that session is not archived. *)
Theorem switch_targets_snapshot (g : Model.GlobalModel) (es : list Event)
    (sid ssid : string) :
  In (SwitchScreen sid ssid) (snd (run es (mounted g))) ->
  exists oScreen s,
    In oScreen (Model.screenMap g) /\ In s (Model.sessionList g) /\
    Model.screenId oScreen = sid /\ Model.sessionId s = ssid /\
    Model.ownerId oScreen = ssid /\ Model.archived s = false.
Proof.
  intros H.
  apply run_effects in H as (o & Ho & <- & <-).
  - unfold mounted, componentDidMount in Ho. cbn [options newModal app] in Ho.
    apply (Permutation_in _ (sort_perm _ _)) in Ho.
    apply snapshot_origin in Ho
      as (sc & s & H1 & H2 & H3 & H4 & H5 & H6 & _).
    exists sc, s. repeat split; auto; congruence.
  - apply mounted_optionsRanked.
  - unfold mounted, componentDidMount. cbn [options sOptions].
    intros o Ho. now apply firstn_In in Ho.
Qed.

Lemma switch_targets_snapshot_witness :
  exists oScreen s,
    In oScreen (Model.screenMap Scenario.registry) /\
    In s (Model.sessionList Scenario.registry) /\
    Model.screenId oScreen = "t-work-build" /\ Model.sessionId s = "s-work" /\
    Model.ownerId oScreen = "s-work" /\ Model.archived s = false.
Proof.
  apply (switch_targets_snapshot Scenario.registry
           [KeyDown "ArrowDown"; KeyDown "Enter"]).
  vm_compute. left. reflexivity.
Defined.

(** ** Substrings *)

Lemma prefix_iff (t : string) :
  forall s, prefix t s = true <-> exists post, s = (t ++ post)%string.
Proof.
  induction t as [|a t IH]; intros s.
  - split; [intros _; now exists s | intros _; now destruct s].
  - destruct s as [|b s].
    + split; [discriminate | intros [post H]; discriminate].
    + change (prefix (String a t) (String b s))
        with (if ascii_dec a b then prefix t s else false).
      destruct (ascii_dec a b) as [->|Hne].
      * rewrite IH. split; intros [post H]; exists post.
        -- cbn [append]. now rewrite H.
        -- cbn [append] in H. now injection H.
      * split; [discriminate|]. intros [post H]. cbn [append] in H.
        injection H as H _. congruence.
Qed.

Lemma includes_unfold (s t : string) :
  JS.includes s t
  = prefix t s ||
    match s with
    | EmptyString => false
    | String _ s' => JS.includes s' t
    end.
Proof. now destruct s. Qed.

Lemma string_app_assoc (a b c : string) :
  ((a ++ b) ++ c = a ++ (b ++ c))%string.
Proof. induction a as [|x a IH]; cbn [append]; [reflexivity | now rewrite IH]. Qed.

(** [s.includes(t)] holds exactly when [s] is [t] with something before
    it and something after it. *)
Lemma includes_iff (s t : string) :
  JS.includes s t = true <-> exists pre post, s = (pre ++ t ++ post)%string.
Proof.
  split.
  - induction s as [|c s IH]; rewrite includes_unfold; intros H;
      apply orb_prop in H as [H|H].
    + apply prefix_iff in H as [post H]. now exists EmptyString, post.
    + discriminate.
    + apply prefix_iff in H as [post H]. now exists EmptyString, post.
    + destruct (IH H) as (pre & post & ->). now exists (String c pre), post.
  - intros (pre & post & ->). induction pre as [|c pre IH].
    + rewrite includes_unfold. apply orb_true_intro. left.
      apply prefix_iff. now exists post.
    + cbn [append]. rewrite includes_unfold, IH. apply orb_true_r.
Qed.

Lemma includes_trans (s t u : string) :
  JS.includes s t = true -> JS.includes t u = true -> JS.includes s u = true.
Proof.
  rewrite !includes_iff. intros (p1 & q1 & ->) (p2 & q2 & ->).
  exists (p1 ++ p2)%string, (q2 ++ q1)%string.
  now rewrite !string_app_assoc.
Qed.

(** X9: typing more never widens a search without a slash: when the
    new text has no slash and contains the old text, every option the
    filter keeps for the new text it keeps for the old one. *)
Theorem search_narrows (this : TabSwitcherModal) (q q' : string) :
  JS.includes q' "/" = false -> JS.includes q' q = true ->
  incl (filterOptions this q') (filterOptions this q).
Proof.
  intros Hs Hq o. rewrite !filterOptions_filter, !filter_In.
  intros [Hin Hm]. split; [exact Hin|].
  assert (Hqs : JS.includes q "/" = false).
  { destruct (JS.includes q "/") eqn:E; [|reflexivity].
    now rewrite (includes_trans q' q "/" Hq E) in Hs. }
  unfold matches in *. rewrite Hs in Hm. rewrite Hqs.
  apply orb_prop in Hm as [Hm|Hm]; apply orb_true_intro; [left|right];
    now apply includes_trans with q'.
Qed.

Lemma search_narrows_witness :
  incl (filterOptions (mounted Scenario.registry) "log")
       (filterOptions (mounted Scenario.registry) "lo").
Proof.
  apply (search_narrows (mounted Scenario.registry) "lo" "log");
    vm_compute; reflexivity.
Defined.

(** ** Letter case in a query with a slash *)

Lemma lowerChar_slash (c : ascii) :
  Ascii.eqb (JS.lowerChar c) "/" = Ascii.eqb c "/".
Proof. destruct c as [[] [] [] [] [] [] [] []]; reflexivity. Qed.

Lemma lowerChar_white (c : ascii) :
  JS.isWhiteSpace (JS.lowerChar c) = JS.isWhiteSpace c.
Proof. destruct c as [[] [] [] [] [] [] [] []]; reflexivity. Qed.

Lemma lowerChar_twice (c : ascii) :
  JS.lowerChar (JS.lowerChar c) = JS.lowerChar c.
Proof. destruct c as [[] [] [] [] [] [] [] []]; reflexivity. Qed.

Lemma toLowerCase_twice (s : string) :
  JS.toLowerCase (JS.toLowerCase s) = JS.toLowerCase s.
Proof.
  induction s as [|c s IH]; [reflexivity|].
  cbn [JS.toLowerCase]. now rewrite lowerChar_twice, IH.
Qed.

Lemma trimStart_lower (s : string) :
  JS.trimStart (JS.toLowerCase s) = JS.toLowerCase (JS.trimStart s).
Proof.
  induction s as [|c s IH]; [reflexivity|].
  cbn [JS.toLowerCase JS.trimStart]. rewrite lowerChar_white.
  now destruct (JS.isWhiteSpace c).
Qed.

Lemma trimEnd_lower (s : string) :
  JS.trimEnd (JS.toLowerCase s) = JS.toLowerCase (JS.trimEnd s).
Proof.
  induction s as [|c s IH]; [reflexivity|].
  cbn [JS.toLowerCase JS.trimEnd]. rewrite lowerChar_white, IH.
  destruct (JS.trimEnd s), (JS.isWhiteSpace c); reflexivity.
Qed.

Lemma trim_lower (s : string) :
  JS.trim (JS.toLowerCase s) = JS.toLowerCase (JS.trim s).
Proof. unfold JS.trim. now rewrite trimStart_lower, trimEnd_lower. Qed.

Lemma split_lower (s : string) :
  JS.split "/" (JS.toLowerCase s) = map JS.toLowerCase (JS.split "/" s).
Proof.
  induction s as [|c s IH]; [reflexivity|].
  cbn [JS.toLowerCase JS.split]. rewrite lowerChar_slash, IH.
  destruct (Ascii.eqb c "/"); [reflexivity|].
  now destruct (JS.split "/" s).
Qed.

Lemma includes_slash_lower (s : string) :
  JS.includes (JS.toLowerCase s) "/" = JS.includes s "/".
Proof.
  induction s as [|c s IH]; [reflexivity|].
  cbn [JS.toLowerCase]. now rewrite !includes_slash_cons, lowerChar_slash, IH.
Qed.

Lemma matches_slash_lower (tab : SwitcherDataType) (q : string) :
  JS.includes q "/" = true -> matches tab q = matches tab (JS.toLowerCase q).
Proof.
  intros H. unfold matches. rewrite includes_slash_lower, H, split_lower, map_map.
  rewrite (map_ext (fun s => JS.toLowerCase (JS.trim (JS.toLowerCase s)))
             (fun s => JS.toLowerCase (JS.trim s))); [reflexivity|].
  intros s. now rewrite trim_lower, toLowerCase_twice.
Qed.

(** X10: a query with a slash is matched whatever its letter case:
    two queries that are the same in lower case, one of them with a
    slash, select the same options. *)
Theorem slash_query_ignores_case (tab : SwitcherDataType) (q q' : string) :
  JS.toLowerCase q = JS.toLowerCase q' -> JS.includes q "/" = true ->
  matches tab q = matches tab q'.
Proof.
  intros Hl Hs.
  assert (Hs' : JS.includes q' "/" = true)
    by now rewrite <- includes_slash_lower, <- Hl, includes_slash_lower.
  now rewrite (matches_slash_lower tab q Hs), (matches_slash_lower tab q' Hs'), Hl.
Qed.

Lemma slash_query_ignores_case_witness :
  matches Scenario.workBuild "WORK/Build" = matches Scenario.workBuild "work/build".
Proof.
  exact (slash_query_ignores_case Scenario.workBuild "WORK/Build" "work/build"
           eq_refl eq_refl).
Defined.

(** ** A blank side of the slash *)

Lemma white_not_slash (c : ascii) :
  JS.isWhiteSpace c = true -> Ascii.eqb c "/" = false.
Proof.
  intros H. destruct (Ascii.eqb_spec c "/") as [->|]; [discriminate | reflexivity].
Qed.

Lemma trimEnd_blank_no_slash (s : string) :
  JS.trimEnd s = "" -> JS.includes s "/" = false.
Proof.
  induction s as [|c s IH]; [reflexivity|].
  cbn [JS.trimEnd]. destruct (JS.isWhiteSpace c) eqn:Ew; [|discriminate].
  destruct (JS.trimEnd s) eqn:Et; [|discriminate].
  intros _. now rewrite includes_slash_cons, (white_not_slash c Ew), IH.
Qed.

Lemma trim_blank_no_slash (s : string) :
  JS.trim s = "" -> JS.includes s "/" = false.
Proof.
  unfold JS.trim. induction s as [|c s IH]; [reflexivity|].
  cbn [JS.trimStart]. destruct (JS.isWhiteSpace c) eqn:Ew.
  - intros H. now rewrite includes_slash_cons, (white_not_slash c Ew), IH.
  - cbn [JS.trimEnd]. rewrite Ew. discriminate.
Qed.

(** X11: a blank side of the slash asks for nothing: with nothing but
    white space after the slash the query selects by the session name
    alone, with nothing but white space before it by the tab name alone,
    and a lone slash selects every option. *)
Theorem slash_blank_side (tab : SwitcherDataType) (a b : string) :
  JS.includes a "/" = false -> JS.trim b = "" ->
  matches tab (a ++ "/" ++ b)
  = JS.includes (JS.toLowerCase (sessionName tab)) (JS.toLowerCase (JS.trim a)) /\
  matches tab (b ++ "/" ++ a)
  = JS.includes (JS.toLowerCase (screenName tab)) (JS.toLowerCase (JS.trim a)) /\
  matches tab (b ++ "/" ++ b) = true.
Proof.
  intros Ha Hb. pose proof (trim_blank_no_slash b Hb) as Hbs.
  destruct (matches_slash_segments tab a b Ha Hbs) as [-> _].
  destruct (matches_slash_segments tab b a Hbs Ha) as [-> _].
  destruct (matches_slash_segments tab b b Hbs Hbs) as [-> _].
  rewrite Hb. cbn [JS.toLowerCase]. rewrite !includes_empty.
  now rewrite andb_true_r.
Qed.

Lemma slash_blank_side_witness :
  matches Scenario.workBuild "work/ " = true /\
  matches Scenario.workBuild " /work" = false /\
  matches Scenario.workBuild " / " = true.
Proof.
  exact (slash_blank_side Scenario.workBuild "work" " " eq_refl eq_refl).
Defined.

(** ** Repeated arrow keys *)

Lemma step_arrow (up : bool) (this : TabSwitcherModal) :
  let len := Z.of_nat (List.length (sOptions this)) in
  0 <= focusedIdx this < len ->
  focusedIdx (fst (step (KeyDown (if up then "ArrowUp" else "ArrowDown")) this))
  = (if up then Z.max (focusedIdx this - 1) 0
     else Z.min (focusedIdx this + 1) (len - 1)) /\
  snd (step (KeyDown (if up then "ArrowUp" else "ArrowDown")) this) = [].
Proof.
  cbv zeta. intros H.
  assert (E : step (KeyDown (if up then "ArrowUp" else "ArrowDown")) this
    = (componentDidUpdate (setFocusedIndex (calculateNewIndex up this) this), []))
    by now destruct up.
  rewrite E. cbn [fst snd]. split; [|reflexivity].
  rewrite componentDidUpdate_no_clamp.
  - unfold setFocusedIndex, calculateNewIndex. cbn [focusedIdx]. now destruct up.
  - unfold cursorInRange, setFocusedIndex, calculateNewIndex.
    cbn [focusedIdx sOptions]. destruct up; lia.
Qed.

Lemma run_arrows (up : bool) (n : nat) :
  forall this,
    let len := Z.of_nat (List.length (sOptions this)) in
    0 <= focusedIdx this < len ->
    focusedIdx (fst (run (repeat (KeyDown (if up then "ArrowUp" else "ArrowDown")) n) this))
    = (if up then Z.max (focusedIdx this - Z.of_nat n) 0
       else Z.min (focusedIdx this + Z.of_nat n) (len - 1)).
Proof.
  cbv zeta. induction n as [|n IH]; intros this H.
  - cbn [repeat run fst]. destruct up; lia.
  - cbn [repeat]. rewrite run_cons.
    destruct (step_arrow up this H) as [Hf _].
    pose proof (step_sOptions (KeyDown (if up then "ArrowUp" else "ArrowDown")) this)
      as Hs.
    assert (Hs' : sOptions (fst (step (KeyDown (if up then "ArrowUp" else "ArrowDown")) this))
                  = sOptions this) by now destruct up.
    rewrite IH; rewrite Hs', Hf; destruct up; lia.
Qed.

(** X12: with the cursor on a visible option, [n] presses of
    ArrowDown move it [n] rows down and stop at the last row, [n] presses
    of ArrowUp move it [n] rows up and stop at the first; neither changes
    the visible options. *)
Theorem arrows_move_and_stop (n : nat) (this : TabSwitcherModal) :
  let len := Z.of_nat (List.length (sOptions this)) in
  0 <= focusedIdx this < len ->
  focusedIdx (fst (run (repeat (KeyDown "ArrowDown") n) this))
  = Z.min (focusedIdx this + Z.of_nat n) (len - 1) /\
  focusedIdx (fst (run (repeat (KeyDown "ArrowUp") n) this))
  = Z.max (focusedIdx this - Z.of_nat n) 0.
Proof.
  cbv zeta. intros H. split.
  - exact (run_arrows false n this H).
  - exact (run_arrows true n this H).
Qed.

Lemma arrows_move_and_stop_witness :
  focusedIdx (fst (run (repeat (KeyDown "ArrowDown") 5) (mounted Scenario.registry)))
  = 2 /\
  focusedIdx (fst (run (repeat (KeyDown "ArrowUp") 5) (mounted Scenario.registry)))
  = 0.
Proof.
  apply (arrows_move_and_stop 5 (mounted Scenario.registry)).
  vm_compute. split; [discriminate | reflexivity].
Defined.

(** * The views of the remote connections *)

(** ** Submitting the edit form *)

(** X13: a form that is submitted as it was mounted sends no change,
    only the two flags, when the stored credentials fit the auth mode:
    a key file is stored only in a key mode, and a password exactly in a
    password mode. [util.isStrEq] is taken to hold of a value and
    itself. *)
Theorem submit_untouched_form
    (isBlank : option string -> bool)
    (isStrEq : option string -> option string -> bool)
    (selectedRemote : option Remote.RemoteType)
    (remoteEdit : option Remote.RemoteEditType) :
  (forall v, isStrEq v v = true) ->
  EditRemoteConnModal.keyMode (Remote.authtypeOf selectedRemote) = true
    \/ isBlank (Remote.keystrOf remoteEdit) = true ->
  Remote.haspasswordOf remoteEdit
    = EditRemoteConnModal.passwordMode (Remote.authtypeOf selectedRemote) ->
  EditRemoteConnModal.submitRemote isBlank isStrEq
    (EditRemoteConnModal.componentDidMount selectedRemote remoteEdit)
    selectedRemote remoteEdit
  = [EditRemote (Remote.remoteidOf selectedRemote)
       [("visual", Some "1"); ("submit", Some "1")];
     CloseModal].
Proof.
  intros Hrefl Hkey Hpw.
  unfold EditRemoteConnModal.submitRemote, EditRemoteConnModal.submitKwargs,
    EditRemoteConnModal.componentDidMount.
  cbn [EditRemoteConnModal.tempAlias EditRemoteConnModal.tempKeyFile
       EditRemoteConnModal.tempPassword EditRemoteConnModal.tempConnectMode
       EditRemoteConnModal.tempAuthMode].
  rewrite !Hrefl, Hpw. cbn [negb].
  assert (Ek : (if EditRemoteConnModal.keyMode (Remote.authtypeOf selectedRemote)
                then []
                else if negb (isBlank (Remote.keystrOf remoteEdit))
                     then [("key", Some "")] else [])
               = @nil (string * option string)).
  { destruct (EditRemoteConnModal.keyMode _); [reflexivity|].
    destruct Hkey as [Hkey|Hkey]; [discriminate | now rewrite Hkey]. }
  rewrite Ek.
  now destruct (EditRemoteConnModal.passwordMode _).
Qed.

Lemma submit_untouched_form_witness :
  EditRemoteConnModal.submitRemote isBlank sameString
    (EditRemoteConnModal.componentDidMount (Some sampleRemote) (Some sampleEdit))
    (Some sampleRemote) (Some sampleEdit)
  = [EditRemote (Some "r1") [("visual", Some "1"); ("submit", Some "1")];
     CloseModal].
Proof.
  apply (submit_untouched_form isBlank sameString
           (Some sampleRemote) (Some sampleEdit)).
  - intros [v|]; [apply String.eqb_refl | reflexivity].
  - right. reflexivity.
  - reflexivity.
Defined.

(** X14: whatever the form holds, [submitRemote] sends one edit
    command and then closes the modal; the arguments carry both flags,
    name no key twice, and never carry the sentinel of the unchanged
    password as a password. *)
Theorem submit_kwargs_shape
    (isBlank : option string -> bool)
    (isStrEq : option string -> option string -> bool)
    (this : EditRemoteConnModal.Form)
    (selectedRemote : option Remote.RemoteType)
    (remoteEdit : option Remote.RemoteEditType) :
  let kwargs :=
    EditRemoteConnModal.submitKwargs isBlank isStrEq this selectedRemote
      remoteEdit in
  EditRemoteConnModal.submitRemote isBlank isStrEq this selectedRemote remoteEdit
  = [EditRemote (Remote.remoteidOf selectedRemote) kwargs; CloseModal] /\
  kwargsGet "visual" kwargs = Some (Some "1") /\
  kwargsGet "submit" kwargs = Some (Some "1") /\
  NoDup (map fst kwargs) /\
  kwargsGet "password" kwargs <> Some (Some PasswordUnchangedSentinel).
Proof.
  cbv zeta. split; [reflexivity|].
  unfold EditRemoteConnModal.submitKwargs.
  repeat match goal with
         | |- context [if ?b then _ else _] => destruct b eqn:?
         end;
    cbn; (repeat split;
          [ repeat constructor; cbn; intuition discriminate
          | try discriminate;
            intros H; injection H as H;
            match goal with
            | E : negb (isString _ _) = true |- _ =>
                rewrite H in E; cbn in E; discriminate
            end ]).
Qed.

(** X15: in a password mode, resetting the password field makes the
    submitted form leave the stored password alone and leaves nothing to
    reset, while a typed password other than the sentinel is sent as
    typed. *)
Theorem reset_password_field
    (isBlank : option string -> bool)
    (isStrEq : option string -> option string -> bool)
    (this : EditRemoteConnModal.Form) (typed : string)
    (selectedRemote : option Remote.RemoteType)
    (remoteEdit : option Remote.RemoteEditType) :
  EditRemoteConnModal.passwordMode (EditRemoteConnModal.tempAuthMode this) = true ->
  String.eqb typed PasswordUnchangedSentinel = false ->
  kwargsGet "password"
    (EditRemoteConnModal.submitKwargs isBlank isStrEq
       (EditRemoteConnModal.resetPw this) selectedRemote remoteEdit) = None /\
  EditRemoteConnModal.canResetPw (EditRemoteConnModal.resetPw this) remoteEdit
  = false /\
  kwargsGet "password"
    (EditRemoteConnModal.submitKwargs isBlank isStrEq
       (EditRemoteConnModal.handleChangePassword typed this)
       selectedRemote remoteEdit) = Some (Some typed) /\
  EditRemoteConnModal.canResetPw
    (EditRemoteConnModal.handleChangePassword typed this) remoteEdit
  = Remote.haspasswordOf remoteEdit.
Proof.
  intros Hpw Hty.
  unfold EditRemoteConnModal.submitKwargs, EditRemoteConnModal.resetPw,
    EditRemoteConnModal.canResetPw, EditRemoteConnModal.handleChangePassword.
  cbn [EditRemoteConnModal.tempAlias EditRemoteConnModal.tempKeyFile
       EditRemoteConnModal.tempPassword EditRemoteConnModal.tempConnectMode
       EditRemoteConnModal.tempAuthMode isString].
  rewrite Hpw, Hty, String.eqb_refl. cbn [negb].
  repeat split.
  - repeat match goal with
           | |- context [if ?b then _ else _] => destruct b
           end; reflexivity.
  - destruct remoteEdit as [e|]; [apply andb_false_r | reflexivity].
  - repeat match goal with
           | |- context [if ?b then _ else _] => destruct b
           end; reflexivity.
  - destruct remoteEdit as [e|]; [apply andb_true_r | reflexivity].
Qed.

Lemma reset_password_field_witness :
  let this :=
    EditRemoteConnModal.componentDidMount (Some sampleRemote) (Some sampleEdit) in
  kwargsGet "password"
    (EditRemoteConnModal.submitKwargs isBlank sameString
       (EditRemoteConnModal.resetPw this) (Some sampleRemote) (Some sampleEdit))
  = None /\
  EditRemoteConnModal.canResetPw (EditRemoteConnModal.resetPw this)
    (Some sampleEdit) = false /\
  kwargsGet "password"
    (EditRemoteConnModal.submitKwargs isBlank sameString
       (EditRemoteConnModal.handleChangePassword "secret" this)
       (Some sampleRemote) (Some sampleEdit)) = Some (Some "secret") /\
  EditRemoteConnModal.canResetPw
    (EditRemoteConnModal.handleChangePassword "secret" this) (Some sampleEdit)
  = true.
Proof.
  exact (reset_password_field isBlank sameString
           (EditRemoteConnModal.componentDidMount (Some sampleRemote)
              (Some sampleEdit))
           "secret" (Some sampleRemote) (Some sampleEdit) eq_refl eq_refl).
Defined.

(** ** Deleting a connection *)

(** X16: [clickArchive] asks for a connection to be archived only
    when the alert was confirmed, a connection is selected when the
    answer arrives (that one is archived), and the connection selected at
    the click was not connected. *)
Theorem archive_needs_confirm
    (atClick atAnswer : option Remote.RemoteType) (confirm : bool)
    (id : string) :
  In (ArchiveRemote id)
     (commands (ViewRemoteConnDetailModal.clickArchive atClick atAnswer) confirm) ->
  confirm = true /\
  (exists remote, atAnswer = Some remote /\ Remote.remoteid remote = id) /\
  (forall remote, atClick = Some remote ->
     String.eqb (Remote.status remote) "connected" = false).
Proof.
  unfold ViewRemoteConnDetailModal.clickArchive.
  destruct (match atClick with
            | Some remote => String.eqb (Remote.status remote) "connected"
            | None => false
            end) eqn:Ec; cbn [commands].
  - intros [H|[]]. discriminate.
  - intros [H|H]; [discriminate|].
    destruct confirm; cbn [negb] in H; [|destruct H].
    destruct atAnswer as [remote|]; [|destruct H].
    destruct H as [H|[]]. injection H as <-.
    split; [reflexivity|]. split; [now exists remote|].
    intros r ->. exact Ec.
Qed.

Lemma archive_needs_confirm_witness :
  true = true /\
  (exists remote, Some sampleRemote = Some remote /\ Remote.remoteid remote = "r1") /\
  (forall remote, Some sampleRemote = Some remote ->
     String.eqb (Remote.status remote) "connected" = false).
Proof.
  apply (archive_needs_confirm (Some sampleRemote) (Some sampleRemote) true "r1").
  vm_compute. right. left. reflexivity.
Defined.

(** ** The buttons of a connection *)

(** X17: the header always offers Reinstall and has at most four
    buttons. An Edit button that can be clicked is offered only for a
    connection that is neither local nor imported from an ssh config;
    Install Now and Cancel Install only for one that is not local, in
    error and in need of an upgrade; Disconnect Now exactly when it is
    connected or connecting, and Connect Now exactly when it is
    disconnected. *)
Theorem header_buttons (remote : Remote.RemoteType) :
  let buttons := ViewRemoteConnDetailModal.renderHeaderBtns remote in
  In ViewRemoteConnDetailModal.Reinstall buttons /\
  (List.length buttons <= 4)%nat /\
  (In ViewRemoteConnDetailModal.EditButton buttons ->
   Remote.local remote = false /\
   String.eqb (Remote.sshconfigsrc remote) "sshconfig-import" = false) /\
  (In ViewRemoteConnDetailModal.InstallNow buttons
   \/ In ViewRemoteConnDetailModal.CancelInstall buttons ->
   Remote.local remote = false /\ Remote.status remote = "error" /\
   Remote.needsmshellupgrade remote = true) /\
  (In ViewRemoteConnDetailModal.DisconnectNow buttons <->
   Remote.status remote = "connected" \/ Remote.status remote = "connecting") /\
  (In ViewRemoteConnDetailModal.ConnectNow buttons <->
   Remote.status remote = "disconnected").
Proof.
  cbv zeta. unfold ViewRemoteConnDetailModal.renderHeaderBtns.
  destruct (Remote.local remote),
    (String.eqb (Remote.sshconfigsrc remote) "sshconfig-import"),
    (Remote.needsmshellupgrade remote),
    (String.eqb (Remote.installstatus remote) "connecting"),
    (String.eqb_spec (Remote.status remote) "connected") as [Hs|Hs];
    try rewrite Hs; cbn;
    try (destruct (String.eqb_spec (Remote.status remote) "connecting") as [Hc|Hc];
         try rewrite Hc; cbn;
         try (destruct (String.eqb_spec (Remote.status remote) "disconnected")
                as [Hd|Hd]; try rewrite Hd; cbn;
              try (destruct (String.eqb_spec (Remote.status remote) "error")
                     as [He|He]; try rewrite He; cbn)));
    repeat split; try lia; intuition (try discriminate; try congruence).
Qed.

(** ** The status line *)

Lemma append_not_empty (a b : string) : (a ++ b)%string = "" -> a = "".
Proof. destruct a; [reflexivity | discriminate]. Qed.

(** X18: the status line has a text exactly for the four statuses the
    view knows; the dot beside it is green for a connected remote only
    and gray for a disconnected one only. *)
Theorem status_message (remote : Remote.RemoteType) :
  (ViewRemoteConnDetailModal.getMessage remote = "" <->
   Remote.status remote <> "connected" /\ Remote.status remote <> "connecting" /\
   Remote.status remote <> "disconnected" /\ Remote.status remote <> "error") /\
  (ViewRemoteConnDetailModal.getStatus (Remote.status remote) = "green" <->
   Remote.status remote = "connected") /\
  (ViewRemoteConnDetailModal.getStatus (Remote.status remote) = "gray" <->
   Remote.status remote = "disconnected").
Proof.
  unfold ViewRemoteConnDetailModal.getMessage, ViewRemoteConnDetailModal.getStatus.
  destruct (String.eqb_spec (Remote.status remote) "connected") as [Hs|Hs];
    [|destruct (String.eqb_spec (Remote.status remote) "connecting") as [Hc|Hc];
      [|destruct (String.eqb_spec (Remote.status remote) "disconnected") as [Hd|Hd];
        [|destruct (String.eqb_spec (Remote.status remote) "error") as [He|He]]]];
    (split; [split; [intros Hm | intros (N1 & N2 & N3 & N4)]
            | split; split; intros Hx]);
    try congruence; try discriminate; try (repeat split; congruence).
  - apply append_not_empty in Hm.
    destruct (Remote.waitingforpassword remote); discriminate.
  - destruct (String.eqb (Remote.status remote) "disconnected"); discriminate.
  - destruct (String.eqb_spec (Remote.status remote) "disconnected");
      [assumption | discriminate].
  - destruct (Remote.noinitpk remote), (Remote.needsmshellupgrade remote),
      (String.eqb (Remote.installstatus remote) "connecting"); discriminate.
Qed.

(** ** The name of a connection *)

(** X19: the name shown in the connections table always contains the
    canonical name, and is the canonical name itself when the alias is
    absent or empty. *)
Theorem name_shows_canonical (item : Remote.RemoteType) :
  JS.includes (ConnectionsView.getName item) (Remote.remotecanonicalname item)
  = true /\
  (Remote.remotealias item = None \/ Remote.remotealias item = Some "" ->
   ConnectionsView.getName item = Remote.remotecanonicalname item).
Proof.
  unfold ConnectionsView.getName. split.
  - apply includes_iff.
    destruct (Remote.remotealias item) as [[|c a]|]; cbn [JS.isEmpty].
    + exists "", "". cbn [append]. induction (Remote.remotecanonicalname item);
        cbn [append]; congruence.
    + exists (String c a ++ " [")%string, "]". now rewrite string_app_assoc.
    + exists "", "". cbn [append]. induction (Remote.remotecanonicalname item);
        cbn [append]; congruence.
  - intros [->| ->]; reflexivity.
Qed.

(** * The update hook of the switcher *)

Lemma componentDidUpdate_eq (this : TabSwitcherModal) :
  componentDidUpdate this
  = {| options := options this; sOptions := sOptions this;
       focusedIdx :=
         clampCursor (Z.of_nat (List.length (sOptions this))) (focusedIdx this);
       activeSessionIdx := activeSessionIdx this;
       prevFocusedIdx := focusedIdx this |}.
Proof.
  destruct this as [opts vis f act prev].
  unfold componentDidUpdate, setFocusedIndex, clampCursor.
  cbn [focusedIdx prevFocusedIdx sOptions options activeSessionIdx].
  destruct (Z.eqb_spec f prev) as [->|Hne]; cbn [negb];
    cbn [focusedIdx prevFocusedIdx sOptions options activeSessionIdx];
    now destruct (_ && _).
Qed.

Lemma clampCursor_twice (len f : Z) :
  clampCursor len (clampCursor len f) = clampCursor len f.
Proof.
  unfold clampCursor.
  destruct ((f >=? len) && (len >? 0)) eqn:E; [|now rewrite E].
  destruct (Z.geb_spec (len - 1) len); [lia | reflexivity].
Qed.

(** X20: the update hook never touches the two arrays, and it settles
    in two rounds from any state: a third round changes nothing, the
    remembered cursor is then the cursor, and a cursor that was at or
    past the end of a non-empty list is on its last row. *)
Theorem update_hook_settles (this : TabSwitcherModal) :
  let settled := componentDidUpdate (componentDidUpdate this) in
  let len := Z.of_nat (List.length (sOptions this)) in
  componentDidUpdate settled = settled /\
  prevFocusedIdx settled = focusedIdx settled /\
  options settled = options this /\ sOptions settled = sOptions this /\
  focusedIdx settled
  = (if (focusedIdx this >=? len) && (len >? 0) then len - 1
     else focusedIdx this).
Proof.
  cbv zeta. rewrite !componentDidUpdate_eq.
  cbn [focusedIdx prevFocusedIdx sOptions options activeSessionIdx].
  rewrite !clampCursor_twice. repeat split.
Qed.
